(** * Link analyzer: URL normalisation, link graph metrics, page
      classification and the external link checker

    A shallow embedding of [skills/link-analyzer/scripts/link_graph.py]
    and [skills/link-analyzer/scripts/http_checker.py].

    Conventions.
    - A Python [str] is the list of its Unicode code points ([N]).
    - A Python [int] is a [Z].
    - A [dict] whose iteration order is observable (the metrics mapping)
      is an association list in insertion order; a [dict] or [set] whose
      order never reaches a result is a [gmap] or [gset].
    - Code that can raise returns a [result]. *)

From Stdlib Require Import ZArith NArith List Ascii String Bool Lia.
From Stdlib Require Import Sorting.Sorted Sorting.Permutation.
From stdpp Require Import base gmap sets list strings sorting.

Local Open Scope N_scope.

(** ** Python strings *)

Abbreviation str := (list N).

(** An ASCII literal, as a list of code points. *)
Definition lit (s : string) : str :=
  map N_of_ascii (list_ascii_of_string s).

Module Chr.
Definition hash : N := 35.
Definition percent : N := 37.
Definition dot : N := 46.
Definition slash : N := 47.
Definition question : N := 63.
Definition backslash : N := 92.
End Chr.

(** [c in s] for a one-character [c]. *)
Definition contains_char (c : N) (s : str) : bool := existsb (N.eqb c) s.

(** [s.split(sep)] for a one-character separator: never empty. *)
Fixpoint split (sep : N) (s : str) : list str :=
  match s with
  | [] => [[]]
  | c :: s' =>
      if c =? sep then [] :: split sep s'
      else match split sep s' with
           | seg :: rest => (c :: seg) :: rest
           | [] => [[c]]
           end
  end.

(** [xs[0]] and [xs[-1]] on the (non-empty) result of [split]. *)
Definition first_of (xs : list str) : str := hd [] xs.
Definition last_of (xs : list str) : str := List.last xs [].

(** [s.startswith(p)] and [s.endswith(p)]. *)
Fixpoint startswith (s p : str) {struct p} : bool :=
  match p with
  | [] => true
  | a :: p' =>
      match s with
      | [] => false
      | b :: s' => (a =? b) && startswith s' p'
      end
  end.

Definition endswith (s p : str) : bool := startswith (rev s) (rev p).

(** [p in s] for strings: [p] occurs as a contiguous substring. *)
Fixpoint substring_of (p s : str) : bool :=
  startswith s p ||
  match s with
  | [] => false
  | _ :: s' => substring_of p s'
  end.

(** Lexicographic comparison by code point, as [<=] on [str]. *)
Fixpoint str_leb (a b : str) : bool :=
  match a, b with
  | [], _ => true
  | _ :: _, [] => false
  | x :: a', y :: b' => (x <? y) || ((x =? y) && str_leb a' b')
  end.

Definition str_le (a b : str) : Prop := str_leb a b = true.

(** ** [urllib.parse.unquote]

    The library function, as CPython defines it: a string without [%]
    is returned as it is; otherwise every maximal run of ASCII
    characters is percent-decoded to bytes and those bytes are decoded
    as UTF-8 with [errors='replace'], and the characters outside ASCII
    are kept. *)

Definition hexval (c : N) : option N :=
  if (48 <=? c) && (c <=? 57) then Some (c - 48)
  else if (65 <=? c) && (c <=? 70) then Some (c - 55)
  else if (97 <=? c) && (c <=? 102) then Some (c - 87)
  else None.

(** One item of [string.split(b'%')[1:]]: two hex digits give a byte,
    anything else keeps its [%]. *)
Definition unquote_item (item : str) : list N :=
  match item with
  | a :: b :: rest =>
      match hexval a, hexval b with
      | Some x, Some y => (16 * x + y) :: rest
      | _, _ => Chr.percent :: item
      end
  | _ => Chr.percent :: item
  end.

Definition unquote_to_bytes (s : str) : list N :=
  match split Chr.percent s with
  | b0 :: items => b0 ++ flat_map unquote_item items
  | [] => []
  end.

Definition replacement : N := 65533. (* U+FFFD *)

Definition is_cont (b : N) : bool := (128 <=? b) && (b <=? 191).
Definition in_range (lo hi b : N) : bool := (lo <=? b) && (b <=? hi).

(** The range of the second byte after a three- or four-byte lead. *)
Definition second_lo (b0 : N) : N :=
  if b0 =? 224 then 160 else if b0 =? 240 then 144 else 128.
Definition second_hi (b0 : N) : N :=
  if b0 =? 237 then 159 else if b0 =? 244 then 143 else 191.

(** [bytes.decode('utf-8', 'replace')]: an ill-formed sequence gives one
    U+FFFD for its maximal well-formed prefix (or its first byte). *)
Fixpoint utf8_decode (bs : list N) : str :=
  match bs with
  | [] => []
  | b0 :: r0 =>
      if b0 <? 128 then b0 :: utf8_decode r0
      else if in_range 194 223 b0 then
        match r0 with
        | [] => [replacement]
        | b1 :: r1 =>
            if is_cont b1
            then ((b0 - 192) * 64 + (b1 - 128)) :: utf8_decode r1
            else replacement :: utf8_decode r0
        end
      else if in_range 224 239 b0 then
        match r0 with
        | [] => [replacement]
        | b1 :: r1 =>
            if in_range (second_lo b0) (second_hi b0) b1 then
              match r1 with
              | [] => [replacement]
              | b2 :: r2 =>
                  if is_cont b2
                  then ((b0 - 224) * 4096 + (b1 - 128) * 64 + (b2 - 128))
                         :: utf8_decode r2
                  else replacement :: utf8_decode r1
              end
            else replacement :: utf8_decode r0
        end
      else if in_range 240 244 b0 then
        match r0 with
        | [] => [replacement]
        | b1 :: r1 =>
            if in_range (second_lo b0) (second_hi b0) b1 then
              match r1 with
              | [] => [replacement]
              | b2 :: r2 =>
                  if is_cont b2 then
                    match r2 with
                    | [] => [replacement]
                    | b3 :: r3 =>
                        if is_cont b3
                        then ((b0 - 240) * 262144 + (b1 - 128) * 4096
                              + (b2 - 128) * 64 + (b3 - 128))
                               :: utf8_decode r3
                        else replacement :: utf8_decode r2
                    end
                  else replacement :: utf8_decode r1
              end
            else replacement :: utf8_decode r0
        end
      else replacement :: utf8_decode r0
  end.

(** The ASCII run collected so far (reversed) is decoded when a
    character outside ASCII, or the end of the string, closes it. *)
Definition flush_run (run : str) : str :=
  utf8_decode (unquote_to_bytes (rev run)).

Fixpoint unquote_parts (s : str) (run : str) : str :=
  match s with
  | [] => flush_run run
  | c :: s' =>
      if c <? 128 then unquote_parts s' (c :: run)
      else flush_run run ++ c :: unquote_parts s' []
  end.

Definition unquote (s : str) : str :=
  if negb (contains_char Chr.percent s) then s else unquote_parts s [].

(** ** [LinkGraphAnalyzer.normalize_url] *)

Definition strip_at (c : N) (url : str) : str :=
  if contains_char c url then first_of (split c url) else url.

Definition ensure_leading_slash (url : str) : str :=
  if negb (startswith url [Chr.slash]) then Chr.slash :: url else url.

Definition ensure_trailing_slash (url : str) : str :=
  if negb (endswith url [Chr.slash])
     && negb (contains_char Chr.dot (last_of (split Chr.slash url)))
  then url ++ [Chr.slash] else url.

Definition normalize_url (url : str) : str :=
  let url := strip_at Chr.hash url in
  let url := strip_at Chr.question url in
  let url := unquote url in
  let url := ensure_leading_slash url in
  ensure_trailing_slash url.


(** ** Python built-ins used by both scripts *)

Local Open Scope Z_scope.

(** [x or d] on an optional list: [None] and the empty list are falsy. *)
Definition or_default {A : Type} (x : option (list A)) (d : list A) : list A :=
  match x with
  | Some (a :: l) => a :: l
  | _ => d
  end.

(** [s[:-n]] for a positive [n]. *)
Definition drop_last (n : nat) (s : str) : str := take (length s - n) s.

(** [sorted]: Python's sort is stable, and a stable sort has one result
    for a total preorder, so the insertion sort below computes it.
    [leb x y] is [not (y < x)]. *)
Fixpoint insert_sorted {A : Type} (leb : A -> A -> bool) (x : A) (l : list A)
  : list A :=
  match l with
  | [] => [x]
  | y :: l' => if leb x y then x :: l else y :: insert_sorted leb x l'
  end.

Definition sorted_with {A : Type} (leb : A -> A -> bool) (l : list A) : list A :=
  foldr (insert_sorted leb) [] l.

(** [sorted(l)] on strings. *)
Definition sorted_str (l : list str) : list str := sorted_with str_leb l.

(** [sorted(l, key=k)] for an integer key. *)
Definition sorted_key {A : Type} (k : A -> Z) (l : list A) : list A :=
  sorted_with (fun a b => k a <=? k b) l.

(** [sorted(l, key=k, reverse=True)]: CPython reverses the list, sorts
    it, and reverses the result, which keeps equal keys in their
    original order. *)
Definition sorted_key_reverse {A : Type} (k : A -> Z) (l : list A) : list A :=
  rev (sorted_key k (rev l)).

(** An insertion-ordered [dict] with string keys: [d[k] = v] replaces
    in place or appends; [d.get(k)]. *)
Fixpoint dict_set {V : Type} (k : str) (v : V) (d : list (str * V))
  : list (str * V) :=
  match d with
  | [] => [(k, v)]
  | (k', v') :: d' =>
      if bool_decide (k = k') then (k, v) :: d' else (k', v') :: dict_set k v d'
  end.

Fixpoint dict_get {V : Type} (k : str) (d : list (str * V)) : option V :=
  match d with
  | [] => None
  | (k', v') :: d' => if bool_decide (k = k') then Some v' else dict_get k d'
  end.

(** Exceptions, by the classes the handlers of [check_url] test, in the
    order they test them. A [BaseException] outside [Exception]
    (cancellation) has every flag false. *)
Record exn := {
  is_Timeout : bool;
  is_ConnectionError : bool;
  is_TooManyRedirects : bool;
  is_SSLError : bool;
  is_Exception : bool;
  exn_str : str
}.

Inductive result (A : Type) :=
| Ok (a : A)
| Raise (e : exn).
Arguments Ok {A} a.
Arguments Raise {A} e.

(** What [check_url] does to the outside world. *)
Inductive event :=
| Head (url : str)
| Get (url : str)
| Sleep (seconds : Z).

(** Effects are logged; an exception ends the computation. *)
Definition io (A : Type) : Type := list event * result A.

#[global] Instance io_ret : MRet io := fun A a => ([], Ok a).

#[global] Instance io_bind : MBind io := fun A B f m =>
  match m with
  | (l, Ok a) => let (l', r) := f a in (l ++ l', r)
  | (l, Raise e) => (l, Raise e)
  end.

(** An effectful call: it is logged, and it returns or raises. *)
Definition call {A : Type} (ev : event) (r : result A) : io A := ([ev], r).

(** [try: m except e: handler e] *)
Definition try_except {A : Type} (m : io A) (handler : exn -> io A) : io A :=
  match m with
  | (l, Raise e) => let (l', r) := handler e in (l ++ l', r)
  | ok => ok
  end.

Record response := {
  resp_status_code : Z;
  resp_reason : str
}.

(** One entry of the list [check_urls] returns. *)
Record ProbeResult := {
  pr_url : str;
  pr_status_code : option Z;
  pr_status_message : str;
  pr_is_broken : bool;
  pr_occurrences : Z;
  pr_sample_pages : list str
}.

(** One value of [urls_with_info]; a missing key is [None]. *)
Record url_info := {
  info_count : option Z;
  info_pages : option (list str)
}.

Record HTTPLinkChecker := {
  timeout : Z;
  max_workers : Z;
  retry_count : Z;
  user_agent : str;
  results : list ProbeResult
}.

(** [HTTPLinkChecker.__init__] *)
Definition new_checker (timeout max_workers retry_count : Z) (user_agent : str)
  : HTTPLinkChecker :=
  {| timeout := timeout; max_workers := max_workers;
     retry_count := retry_count; user_agent := user_agent; results := [] |}.

(** What [ThreadPoolExecutor(max_workers=n)] raises for [n <= 0]: a
    [ValueError]. *)
Definition max_workers_error : exn :=
  {| is_Timeout := false; is_ConnectionError := false;
     is_TooManyRedirects := false; is_SSLError := false;
     is_Exception := true;
     exn_str := lit "max_workers must be greater than 0" |}.

(** [str.lower] on ASCII letters; used to evaluate the model on ASCII
    input, where it agrees with Python. *)
Definition ascii_lower (s : str) : str :=
  map (fun c => if ((65 <=? c) && (c <=? 90))%N then (c + 32)%N else c) s.

(** ** Concrete values for evaluating the model

    Exact fractions in lowest terms stand in for binary floating point
    where the model is run on an example; the statements of this file
    hold for every choice of the float operations. *)

Definition fraction : Type := Z * Z.

Definition reduce (n d : Z) : fraction :=
  let g := Z.gcd n d in (n / g, d / g).

Definition round_half_even (n d : Z) : Z :=
  let q := n / d in
  let r := n mod d in
  if 2 * r <? d then q
  else if d <? 2 * r then q + 1
  else if Z.even q then q else q + 1.

Definition exact_zero : fraction := (0, 1).

Definition exact_truediv (a b : Z) : fraction :=
  reduce (a * Z.sgn b) (Z.abs b).

(** The exact quotient rounded to two decimals, ties to even. CPython
    rounds the double nearest to the quotient, so the two differ where
    the exact quotient is a decimal tie ([round(1/40, 2)] is [0.03]
    there, [1/50] here); the examples below stay clear of ties. *)
Definition exact_round2 (x : fraction) : fraction :=
  reduce (round_half_even (100 * x.1) x.2) 100.

(** Two exceptions of [requests]: a read timeout, and a refused
    connection. *)
Definition read_timeout : exn :=
  {| is_Timeout := true; is_ConnectionError := false;
     is_TooManyRedirects := false; is_SSLError := false;
     is_Exception := true; exn_str := lit "Read timed out." |}.

Definition connection_refused : exn :=
  {| is_Timeout := false; is_ConnectionError := true;
     is_TooManyRedirects := false; is_SSLError := false;
     is_Exception := true; exn_str := lit "Connection refused" |}.

(** Three networks: every request times out; every connection is
    refused; every [HEAD] is answered [200 OK]. *)
Definition net_timeout (url : str) (attempt : nat) : result response :=
  Raise read_timeout.

Definition net_refused (url : str) (attempt : nat) : result response :=
  Raise connection_refused.

Definition net_ok (url : str) (attempt : nat) : result response :=
  Ok {| resp_status_code := 200; resp_reason := lit "OK" |}.

Definition read_ok (url : str) (attempt : nat) : result unit := Ok tt.

(** The first attempt times out and the next finds the port closed. *)
Definition net_timeout_then_refused (url : str) (attempt : nat)
  : result response :=
  match attempt with
  | O => Raise read_timeout
  | S _ => Raise connection_refused
  end.

Definition default_user_agent : str :=
  lit "Mozilla/5.0 (compatible; LinkChecker/1.0)".

(** Two entries of [urls_with_info], the second without its keys. *)
Definition two_urls : gmap str url_info :=
  {[ lit "https://example.org/" :=
       {| info_count := Some 2; info_pages := Some [lit "/"; lit "/a/"] |};
     lit "https://example.net/x" :=
       {| info_count := None; info_pages := None |} ]}.

(** A broken link to a site of the built-in bot-blocker list, and a
    broken link answered 403. *)
Definition linkedin_404 : ProbeResult :=
  {| pr_url := lit "https://www.linkedin.com/in/jane";
     pr_status_code := Some 404;
     pr_status_message := lit "Not Found";
     pr_is_broken := true;
     pr_occurrences := 1;
     pr_sample_pages := [lit "/about/"] |}.

Definition forbidden_403 : ProbeResult :=
  {| pr_url := lit "https://example.com/private";
     pr_status_code := Some 403;
     pr_status_message := lit "Forbidden";
     pr_is_broken := true;
     pr_occurrences := 3;
     pr_sample_pages := [lit "/"] |}.

(** One HTML file: its relative path, and the [href]s of its anchors, or
    [None] when reading or parsing it raises. *)
Definition html_file : Type := str * option (list str).

(** The site of three pages: [/] links to [/a/], [/a/] links to [/b/],
    and [/b/] links nowhere. *)
Definition three_pages : list html_file :=
  [ (lit "index.html", Some [lit "/a/"]);
    (lit "a/index.html", Some [lit "/b/"]);
    (lit "b.html", Some []) ].

Section Model.

(** [str.lower]: Python's Unicode case mapping, a parameter. *)
Variable str_lower : str -> str.

(** Python floats. [F] holds the finite values; [int_truediv a b] is
    [a / b] on integers (with [b] non-zero it is finite or raises, never
    [inf]); [round2 x] is [round(x, 2)]. *)
Variable F : Type.
Variable fzero : F.
Variable int_truediv : Z -> Z -> F.
Variable round2 : F -> F.

(** A float is [float('inf')] or finite, so [ratio != float('inf')] is a
    test on the constructor. *)
Inductive pyfloat :=
| Infinity
| Finite (x : F).

(** The [ratio] field holds the integer [-1] or a float. *)
Inductive number :=
| Int (z : Z)
| Float (x : F).

(** ** link_graph.py *)

Record PageMetrics := {
  url : str;
  inbound : Z;
  outbound : Z;
  ratio : number;
  inbound_from : list str;
  outbound_to : list str
}.

(** The fields of [LinkGraphAnalyzer] that the methods below read and
    write. [dist_path] is left out: a file is given by its path relative
    to it, [str(file_path.relative_to(self.dist_path))]. *)
Record LinkGraphAnalyzer := {
  excluded_paths : list str;
  excluded_extensions : list str;
  link_graph : gmap str (list str);
  all_pages : gset str;
  metrics : list (str * PageMetrics)
}.

Definition default_excluded_extensions : list str :=
  map lit [".css"; ".js"; ".png"; ".jpg"; ".jpeg"; ".gif"; ".svg";
           ".ico"; ".pdf"; ".xml"; ".txt"; ".woff"; ".woff2"; ".json"]%string.

(** [LinkGraphAnalyzer.__init__] *)
Definition new_analyzer (excluded_paths excluded_extensions : option (list str))
  : LinkGraphAnalyzer :=
  {| excluded_paths := or_default excluded_paths [];
     excluded_extensions :=
       or_default excluded_extensions default_excluded_extensions;
     link_graph := ∅;
     all_pages := ∅;
     metrics := [] |}.

Definition file_path_to_url (relative : str) : str :=
  let url :=
    Chr.slash
      :: map (fun c => if (c =? Chr.backslash)%N then Chr.slash else c) relative in
  let url :=
    if endswith url (lit "/index.html") then drop_last 10 url
    else if endswith url (lit ".html") then drop_last 5 url ++ [Chr.slash]
    else url in
  normalize_url url.

Definition is_excluded (self : LinkGraphAnalyzer) (url : str) : bool :=
  existsb (fun pattern => startswith url pattern) (excluded_paths self)
  || existsb (fun ext => endswith (str_lower url) ext) (excluded_extensions self).

(** [extract_internal_links], from the [href] values BeautifulSoup finds
    in the document, in document order. *)
Definition extract_internal_links (self : LinkGraphAnalyzer) (hrefs : list str)
  : list str :=
  flat_map
    (fun href =>
       if startswith href [Chr.slash] then
         let normalized := normalize_url href in
         if negb (is_excluded self normalized) then [normalized] else []
       else [])
    hrefs.

(** The body of the loop of [build_graph]. [list(set(links))] is
    [elements] of the set: distinct, in an order of its own. *)
Definition build_graph_step (self : LinkGraphAnalyzer) (file : html_file)
  : LinkGraphAnalyzer :=
  let source_url := file_path_to_url file.1 in
  if is_excluded self source_url then self
  else
    let pages := {[ source_url ]} ∪ all_pages self in
    match file.2 with
    | None =>
        {| excluded_paths := excluded_paths self;
           excluded_extensions := excluded_extensions self;
           link_graph := link_graph self;
           all_pages := pages;
           metrics := metrics self |}
    | Some hrefs =>
        let links := extract_internal_links self hrefs in
        let unique_links := elements (list_to_set links : gset str) in
        {| excluded_paths := excluded_paths self;
           excluded_extensions := excluded_extensions self;
           link_graph := <[source_url := unique_links]> (link_graph self);
           all_pages := list_to_set unique_links ∪ pages;
           metrics := metrics self |}
    end.

Definition build_graph (self : LinkGraphAnalyzer) (html_files : list html_file)
  : LinkGraphAnalyzer :=
  foldl build_graph_step self html_files.

(** The reverse graph of [calculate_metrics]: a [defaultdict(list)]. *)
Definition add_inbound (source : str) (inb : gmap str (list str)) (target : str)
  : gmap str (list str) :=
  <[target := inb !!! target ++ [source]]> inb.

Definition build_inbound_from (graph : gmap str (list str))
  : gmap str (list str) :=
  foldl (fun inb item => foldl (add_inbound item.1) inb item.2) ∅
        (map_to_list graph).

Definition ratio_of (inbound_count outbound_count : Z) : pyfloat :=
  if outbound_count =? 0
  then (if 0 <? inbound_count then Infinity else Finite fzero)
  else Finite (int_truediv inbound_count outbound_count).

Definition ratio_field (ratio : pyfloat) : number :=
  match ratio with
  | Finite x => Float (round2 x)
  | Infinity => Int (-1)
  end.

Definition page_metrics (self : LinkGraphAnalyzer)
  (inbound_from : gmap str (list str)) (page : str) : PageMetrics :=
  let inbound_list := default [] (inbound_from !! page) in
  let outbound_list := default [] (link_graph self !! page) in
  let inbound_count := Z.of_nat (length inbound_list) in
  let outbound_count := Z.of_nat (length outbound_list) in
  {| url := page;
     inbound := inbound_count;
     outbound := outbound_count;
     ratio := ratio_field (ratio_of inbound_count outbound_count);
     inbound_from := take 10 (sorted_str inbound_list);
     outbound_to := take 10 (sorted_str outbound_list) |}.

(** [calculate_metrics]: the pages are visited in the set's order. *)
Definition calculate_metrics (self : LinkGraphAnalyzer) : LinkGraphAnalyzer :=
  let inbound_from := build_inbound_from (link_graph self) in
  {| excluded_paths := excluded_paths self;
     excluded_extensions := excluded_extensions self;
     link_graph := link_graph self;
     all_pages := all_pages self;
     metrics :=
       foldl (fun m page => dict_set page (page_metrics self inbound_from page) m)
             (metrics self) (elements (all_pages self)) |}.

Definition find_orphans (self : LinkGraphAnalyzer) : list str :=
  sorted_str
    (flat_map
       (fun item =>
          if inbound item.2 =? 0
          then (if negb (bool_decide (item.1 = lit "/")) then [item.1] else [])
          else [])
       (metrics self)).

(** The dictionaries the three other finders return. *)
Record underlinked_entry := {
  ul_url : str;
  ul_inbound : Z;
  ul_inbound_from : list str
}.

Record overlinked_entry := {
  ol_url : str;
  ol_outbound : Z
}.

Record sink_entry := {
  sk_url : str;
  sk_inbound : Z;
  sk_outbound : Z
}.

Definition underlinked_candidates (self : LinkGraphAnalyzer) (threshold : Z)
  : list underlinked_entry :=
  flat_map
    (fun item =>
       if (0 <? inbound item.2) && (inbound item.2 <? threshold)
       then [{| ul_url := item.1; ul_inbound := inbound item.2;
                ul_inbound_from := inbound_from item.2 |}]
       else [])
    (metrics self).

Definition find_underlinked (self : LinkGraphAnalyzer) (threshold : Z)
  : list underlinked_entry :=
  sorted_key ul_inbound (underlinked_candidates self threshold).

Definition overlinked_candidates (self : LinkGraphAnalyzer) (threshold : Z)
  : list overlinked_entry :=
  flat_map
    (fun item =>
       if threshold <? outbound item.2
       then [{| ol_url := item.1; ol_outbound := outbound item.2 |}]
       else [])
    (metrics self).

Definition find_overlinked (self : LinkGraphAnalyzer) (threshold : Z)
  : list overlinked_entry :=
  sorted_key_reverse ol_outbound (overlinked_candidates self threshold).

Definition sink_candidates (self : LinkGraphAnalyzer) (min_inbound max_outbound : Z)
  : list sink_entry :=
  flat_map
    (fun item =>
       if (min_inbound <=? inbound item.2) && (outbound item.2 <=? max_outbound)
       then [{| sk_url := item.1; sk_inbound := inbound item.2;
                sk_outbound := outbound item.2 |}]
       else [])
    (metrics self).

Definition find_link_sinks (self : LinkGraphAnalyzer) (min_inbound max_outbound : Z)
  : list sink_entry :=
  sorted_key_reverse sk_inbound (sink_candidates self min_inbound max_outbound).

(** Vocabulary for the statements about the classifier and the graph. *)

Definition is_orphan (item : str * PageMetrics) : bool :=
  (inbound item.2 =? 0) && negb (bool_decide (item.1 = lit "/")).

Definition is_underlinked (threshold : Z) (item : str * PageMetrics) : bool :=
  (0 <? inbound item.2) && (inbound item.2 <? threshold).

Definition is_overlinked (threshold : Z) (item : str * PageMetrics) : bool :=
  threshold <? outbound item.2.

Definition is_sink (min_inbound max_outbound : Z) (item : str * PageMetrics)
  : bool :=
  (min_inbound <=? inbound item.2) && (outbound item.2 <=? max_outbound).

(** [sum(...)] over a list of integers. *)
Definition sum_Z (l : list Z) : Z := foldr Z.add 0 l.

(** The number of entries the lists of [g] hold for the pages [pages]. *)
Definition total_len (g : gmap str (list str)) (pages : list str) : nat :=
  sum_list_with (fun p => length (default [] (g !! p))) pages.

(** Sources and targets of the graph are pages. *)
Definition graph_closed (self : LinkGraphAnalyzer) : Prop :=
  forall s ts, link_graph self !! s = Some ts ->
    s ∈ all_pages self /\ forall t, t ∈ ts -> t ∈ all_pages self.

(** The ratio policy of the specification, on one entry. *)
Definition ratio_policy (m : PageMetrics) : Prop :=
  (outbound m = 0 -> 0 < inbound m -> ratio m = Int (-1))
  /\ (outbound m = 0 -> inbound m = 0 -> ratio m = Float fzero)
  /\ (outbound m <> 0 ->
      ratio m = Float (round2 (int_truediv (inbound m) (outbound m)))).

(** The orders the specification words for the three lists: by the
    count, and by the page where the counts are equal. *)
Definition underlinked_order_by_page (a b : underlinked_entry) : Prop :=
  ul_inbound a < ul_inbound b
  \/ (ul_inbound a = ul_inbound b /\ str_le (ul_url a) (ul_url b)).

Definition overlinked_order_by_page (a b : overlinked_entry) : Prop :=
  ol_outbound b < ol_outbound a
  \/ (ol_outbound a = ol_outbound b /\ str_le (ol_url a) (ol_url b)).

Definition sink_order_by_page (a b : sink_entry) : Prop :=
  sk_inbound b < sk_inbound a
  \/ (sk_inbound a = sk_inbound b /\ str_le (sk_url a) (sk_url b)).

(** ** http_checker.py *)

(** The network, as [check_url] meets it: what [requests.head] and
    [requests.get] return or raise for a URL at a given attempt, and
    whether reading the first chunk of the body and closing raises. *)
Variable requests_head : str -> nat -> result response.
Variable requests_get : str -> nat -> result response.
Variable read_first_chunk : str -> nat -> result unit.

(** [as_completed]: the futures in the order they finish. *)
Variable as_completed : list (str * url_info) -> list (str * url_info).

Definition probe_result : Type := option Z * str * bool.

(** The [try] block of one attempt. *)
Definition probe (url : str) (attempt : nat) : io probe_result :=
  response ← call (Head url) (requests_head url attempt);
  response ←
    (if bool_decide (resp_status_code response ∈ [405; 403]) then
       response ← call (Get url) (requests_get url attempt);
       _ ← ([], read_first_chunk url attempt);
       mret response
     else mret response);
  let is_broken := 400 <=? resp_status_code response in
  mret (Some (resp_status_code response), resp_reason response, is_broken).

(** The [except] clauses, in order. [Some] is a [return], [None] falls
    out of the handler to the next iteration; an exception no clause
    matches propagates. *)
Definition handler (self : HTTPLinkChecker) (attempt : nat) (e : exn)
  : io (option probe_result) :=
  if is_Timeout e then
    if Z.of_nat attempt =? retry_count self - 1
    then mret (Some (None, lit "Timeout", true))
    else _ ← call (Sleep 1) (Ok tt); mret None
  else if is_ConnectionError e then
    mret (Some (None, lit "Connection Error (Domain may not exist)", true))
  else if is_TooManyRedirects e then
    mret (Some (None, lit "Too Many Redirects", true))
  else if is_SSLError e then
    mret (Some (None, lit "SSL Certificate Error", true))
  else if is_Exception e then
    mret (Some (None, lit "Error: " ++ exn_str e, true))
  else ([], Raise e).

(** [for attempt in range(self.retry_count)], from [attempt] on with
    [remaining] iterations left, and the [return] after the loop. *)
Fixpoint attempts (self : HTTPLinkChecker) (url : str) (attempt remaining : nat)
  : io probe_result :=
  match remaining with
  | O => mret (None, lit "Unknown Error", true)
  | S remaining' =>
      r ← try_except (answer ← probe url attempt; mret (Some answer))
                     (handler self attempt);
      match r with
      | Some answer => mret answer
      | None => attempts self url (S attempt) remaining'
      end
  end.

Definition check_url (self : HTTPLinkChecker) (url : str) : io probe_result :=
  attempts self url 0 (Z.to_nat (retry_count self)).

Definition check_single (self : HTTPLinkChecker) (url : str) (info : url_info)
  : io ProbeResult :=
  answer ← check_url self url;
  mret {| pr_url := url;
          pr_status_code := answer.1.1;
          pr_status_message := answer.1.2;
          pr_is_broken := answer.2;
          pr_occurrences := default 1 (info_count info);
          pr_sample_pages := take 5 (default [] (info_pages info)) |}.

(** The loop over the completed futures: [future.result()] returns the
    dictionary or raises what the worker raised. *)
Fixpoint collect (acc : list ProbeResult) (completed : list (result ProbeResult))
  : list ProbeResult * result unit :=
  match completed with
  | [] => (acc, Ok tt)
  | Ok r :: rest => collect (acc ++ [r]) rest
  | Raise e :: _ => (acc, Raise e)
  end.

(** [check_urls]: the checker afterwards, and the list returned (which is
    [self.results]) or the exception raised. The pool is made first:
    with [max_workers <= 0] its constructor raises, nothing is submitted
    and [self.results] stays as it was. *)
Definition check_urls (self : HTTPLinkChecker) (urls_with_info : gmap str url_info)
  : HTTPLinkChecker * result (list ProbeResult) :=
  if max_workers self <=? 0 then (self, Raise max_workers_error)
  else
    let completed :=
      map (fun item => (check_single self item.1 item.2).2)
          (as_completed (map_to_list urls_with_info)) in
    let (results', outcome) := collect (results self) completed in
    ({| timeout := timeout self; max_workers := max_workers self;
        retry_count := retry_count self; user_agent := user_agent self;
        results := results' |},
     match outcome with
     | Ok _ => Ok results'
     | Raise e => Raise e
     end).

Definition is_head (ev : event) : bool :=
  match ev with Head _ => true | _ => false end.

Definition is_sleep (ev : event) : bool :=
  match ev with Sleep _ => true | _ => false end.

(** The requests and sleeps of the attempts [a], ..., [a + k - 1] when
    each of them is followed by the back-off. *)
Definition retried_log (url : str) (a k : nat) : list event :=
  concat (map (fun j => (probe url j).1 ++ [Sleep 1]) (seq a k)).

Definition timeout_answer : probe_result := (None, lit "Timeout", true).

Definition connection_error_answer : probe_result :=
  (None, lit "Connection Error (Domain may not exist)", true).

Definition default_bot_blockers : list str :=
  map lit ["linkedin.com"; "stackoverflow.com"; "twitter.com"; "x.com";
           "facebook.com"; "instagram.com"; "pixabay.com"; "unsplash.com"]%string.

Definition default_ignore_codes : list Z := [403; 503; 520; 999].

(** [status_code in ignore_codes]: [None] equals no integer. *)
Definition status_in (status_code : option Z) (codes : list Z) : bool :=
  match status_code with
  | Some c => existsb (Z.eqb c) codes
  | None => false
  end.

(** The value of [is_false_positive] at the end of the loop body. *)
Definition is_false_positive (bot_blockers : list str) (ignore_codes : list Z)
  (result : ProbeResult) : bool :=
  let url := str_lower (pr_url result) in
  let status_code := pr_status_code result in
  let is_false_positive := existsb (fun domain => substring_of domain url) bot_blockers in
  let is_false_positive :=
    if status_in status_code ignore_codes then true else is_false_positive in
  let is_false_positive :=
    if startswith url (lit "mailto:") || startswith url (lit "tel:")
    then true else is_false_positive in
  is_false_positive.

(** The loop of [filter_false_positives], with its two accumulators. *)
Fixpoint filter_loop (bot_blockers : list str) (ignore_codes : list Z)
  (results : list ProbeResult) (real_broken false_positives : list ProbeResult)
  : list ProbeResult * list ProbeResult :=
  match results with
  | [] => (real_broken, false_positives)
  | result :: rest =>
      if negb (pr_is_broken result)
      then filter_loop bot_blockers ignore_codes rest real_broken false_positives
      else if is_false_positive bot_blockers ignore_codes result
      then filter_loop bot_blockers ignore_codes rest
             real_broken (false_positives ++ [result])
      else filter_loop bot_blockers ignore_codes rest
             (real_broken ++ [result]) false_positives
  end.

Definition filter_false_positives (results : list ProbeResult)
  (bot_blocker_domains : option (list str)) (ignore_status_codes : option (list Z))
  : list ProbeResult * list ProbeResult :=
  let bot_blockers := or_default bot_blocker_domains default_bot_blockers in
  let ignore_codes := or_default ignore_status_codes default_ignore_codes in
  filter_loop bot_blockers ignore_codes results [] [].

(** What the rules say of a result, for given lists: its URL holds one
    of the domains, or its status code is one of the codes, or it is a
    [mailto:] or [tel:] link. *)
Definition reclassified (bot_blockers : list str) (ignore_codes : list Z)
  (result : ProbeResult) : Prop :=
  (exists domain, domain ∈ bot_blockers
                  /\ substring_of domain (str_lower (pr_url result)) = true)
  \/ (exists c, pr_status_code result = Some c /\ c ∈ ignore_codes)
  \/ startswith (str_lower (pr_url result)) (lit "mailto:") = true
  \/ startswith (str_lower (pr_url result)) (lit "tel:") = true.

(** The list the filter works with, in the words of the amended claim:
    a supplied list that is not empty is the list in force; when none
    is supplied, or the supplied one is empty, the built-in list is. *)
Inductive list_in_force {A : Type} (built_in : list A)
  : option (list A) -> list A -> Prop :=
| supplied_in_force (supplied : list A) :
    supplied <> [] -> list_in_force built_in (Some supplied) supplied
| absent_gives_built_in : list_in_force built_in None built_in
| empty_gives_built_in : list_in_force built_in (Some []) built_in.

(** * Properties *)

(** Proofs below keep only the section variables their statement names. *)
Ltac forget_model :=
  try clear as_completed; try clear read_first_chunk; try clear requests_get;
  try clear requests_head; try clear round2; try clear int_truediv;
  try clear fzero; try clear F; try clear str_lower.


(** ** Strings *)

Lemma startswith_app (s t p : str) :
  startswith s p = true -> startswith (s ++ t) p = true.
Proof using Type.
  revert s; induction p as [|a p IH]; intros [|b s]; simpl; try done.
  rewrite !andb_true_iff. intros [-> H]. split; [done | by apply IH].
Qed.

Lemma endswith_snoc (s : str) (c : N) : endswith (s ++ [c]) [c] = true.
Proof using Type.
  unfold endswith. rewrite rev_app_distr. simpl. by rewrite N.eqb_refl.
Qed.

Lemma contains_char_app (c : N) (s t : str) :
  contains_char c (s ++ t) = contains_char c s || contains_char c t.
Proof using Type. apply existsb_app. Qed.

Lemma contains_char_false (c : N) (s : str) :
  contains_char c s = false <-> c ∉ s.
Proof using Type. forget_model.
  unfold contains_char. induction s as [|x s IH]; simpl.
  - split; [intros _; apply not_elem_of_nil | done].
  - rewrite orb_false_iff, IH, not_elem_of_cons, N.eqb_neq. tauto.
Qed.

(** The first piece of a split holds no separator, and is a prefix. *)
Lemma first_of_split_prefix (c : N) (s : str) :
  exists t, s = first_of (split c s) ++ t.
Proof using Type.
  induction s as [|x s [t IH]]; simpl.
  - by exists [].
  - destruct (N.eqb_spec x c) as [->|Hne]; simpl.
    + by exists (c :: s).
    + destruct (split c s) as [|seg rest]; simpl in *.
      * exists s. done.
      * exists t. by rewrite IH at 1.
Qed.

Lemma first_of_split_clean (c : N) (s : str) :
  contains_char c (first_of (split c s)) = false.
Proof using Type.
  induction s as [|x s IH]; simpl; [done|].
  destruct (N.eqb_spec x c) as [->|Hne]; simpl; [done|].
  destruct (split c s) as [|seg rest]; simpl in *.
  - rewrite orb_false_r. by apply N.eqb_neq.
  - rewrite IH, orb_false_r. by apply N.eqb_neq.
Qed.

Lemma strip_at_clean (c : N) (s : str) : contains_char c (strip_at c s) = false.
Proof using Type.
  unfold strip_at. destruct (contains_char c s) eqn:E; [|done].
  apply first_of_split_clean.
Qed.

Lemma strip_at_keeps_clean (c d : N) (s : str) :
  contains_char d s = false -> contains_char d (strip_at c s) = false.
Proof using Type.
  unfold strip_at. destruct (contains_char c s); [|done].
  destruct (first_of_split_prefix c s) as [t Ht]. intros H.
  rewrite Ht, contains_char_app in H. by apply orb_false_iff in H as [H _].
Qed.

Lemma strip_at_id (c : N) (s : str) :
  contains_char c s = false -> strip_at c s = s.
Proof using Type. unfold strip_at. by intros ->. Qed.

Lemma unquote_no_percent (s : str) :
  contains_char Chr.percent s = false -> unquote s = s.
Proof using Type. unfold unquote. by intros ->. Qed.

(** ** The URL normaliser *)

Lemma ensure_leading_slash_starts (s : str) :
  startswith (ensure_leading_slash s) [Chr.slash] = true.
Proof using Type.
  unfold ensure_leading_slash.
  destruct (startswith s [Chr.slash]) eqn:E; [done | reflexivity].
Qed.

Lemma ensure_trailing_slash_starts (s : str) :
  startswith s [Chr.slash] = true ->
  startswith (ensure_trailing_slash s) [Chr.slash] = true.
Proof using Type.
  unfold ensure_trailing_slash. intros H.
  destruct (_ && _); [by apply startswith_app | done].
Qed.

Lemma ensure_trailing_slash_idem (s : str) :
  ensure_trailing_slash (ensure_trailing_slash s) = ensure_trailing_slash s.
Proof using Type.
  unfold ensure_trailing_slash at 2 3.
  destruct (negb (endswith s [Chr.slash]) && _) eqn:E.
  - unfold ensure_trailing_slash. rewrite endswith_snoc. reflexivity.
  - unfold ensure_trailing_slash. by rewrite E.
Qed.

Lemma normalize_url_starts (u : str) :
  startswith (normalize_url u) [Chr.slash] = true.
Proof using Type.
  unfold normalize_url.
  apply ensure_trailing_slash_starts, ensure_leading_slash_starts.
Qed.

Lemma ensure_leading_slash_id (s : str) :
  startswith s [Chr.slash] = true -> ensure_leading_slash s = s.
Proof using Type. unfold ensure_leading_slash. by intros ->. Qed.

(** A string that already has the shape [normalize_url] gives, and
    holds nothing it strips or decodes, is left as it is. *)
Lemma normalize_url_fixed (v : str) :
  startswith v [Chr.slash] = true ->
  ensure_trailing_slash v = v ->
  contains_char Chr.hash v = false ->
  contains_char Chr.question v = false ->
  unquote v = v ->
  normalize_url v = v.
Proof using Type.
  intros Hs Ht Hh Hq Hu. unfold normalize_url.
  by rewrite (strip_at_id _ _ Hh), (strip_at_id _ _ Hq), Hu,
    (ensure_leading_slash_id _ Hs).
Qed.

Lemma normalize_url_shape (u : str) :
  startswith (normalize_url u) [Chr.slash] = true
  /\ ensure_trailing_slash (normalize_url u) = normalize_url u.
Proof using Type.
  split; [apply normalize_url_starts|].
  unfold normalize_url. apply ensure_trailing_slash_idem.
Qed.

(** C1 (amended): a second pass changes nothing when the normalised
    string holds no [#], no [?], and nothing [unquote] would decode. *)
Theorem normalize_url_idempotent_on_clean (u : str) :
  contains_char Chr.hash (normalize_url u) = false ->
  contains_char Chr.question (normalize_url u) = false ->
  unquote (normalize_url u) = normalize_url u ->
  normalize_url (normalize_url u) = normalize_url u.
Proof using Type.
  intros Hh Hq Hu. destruct (normalize_url_shape u) as [Hs Ht].
  by apply normalize_url_fixed.
Qed.

(** In particular every input without [%] is normalised in one pass. *)
Lemma normalize_url_idempotent_no_percent (u : str) :
  contains_char Chr.percent u = false ->
  normalize_url (normalize_url u) = normalize_url u.
Proof using Type.
  intros Hp.
  assert (Hclean : forall c, c <> Chr.slash ->
            contains_char c (unquote (strip_at Chr.question (strip_at Chr.hash u)))
            = false ->
            contains_char c (normalize_url u) = false).
  { intros c Hc H. unfold normalize_url, ensure_trailing_slash, ensure_leading_slash.
    assert (Hs : (c =? Chr.slash)%N = false) by by apply N.eqb_neq.
    repeat match goal with |- context [if ?b then _ else _] => destruct b end;
      rewrite ?contains_char_app; simpl; rewrite ?Hs, ?H; done. }
  assert (Hp' : contains_char Chr.percent
                  (strip_at Chr.question (strip_at Chr.hash u)) = false)
    by by do 2 apply strip_at_keeps_clean.
  rewrite (unquote_no_percent _ Hp') in Hclean.
  destruct (normalize_url_shape u) as [Hs Ht].
  apply normalize_url_fixed; [done | done | | |].
  - apply Hclean; [done|]. apply strip_at_keeps_clean, strip_at_clean.
  - apply Hclean; [done|]. apply strip_at_clean.
  - apply unquote_no_percent, Hclean; done.
Qed.

(** ** Sorting *)

Lemma insert_sorted_perm {A : Type} (leb : A -> A -> bool) (x : A) (l : list A) :
  insert_sorted leb x l ≡ₚ x :: l.
Proof using Type.
  induction l as [|y l IH]; simpl; [done|].
  destruct (leb x y); [done|]. rewrite IH. apply perm_swap.
Qed.

Lemma sorted_with_perm {A : Type} (leb : A -> A -> bool) (l : list A) :
  sorted_with leb l ≡ₚ l.
Proof using Type.
  induction l as [|x l IH]; simpl; [done|].
  rewrite insert_sorted_perm. by rewrite IH.
Qed.

Lemma insert_sorted_Sorted {A : Type} (leb : A -> A -> bool) (x : A) (l : list A) :
  (forall a b, leb a b = true \/ leb b a = true) ->
  Sorted (fun a b => leb a b = true) l ->
  Sorted (fun a b => leb a b = true) (insert_sorted leb x l).
Proof using Type.
  intros Htot. induction 1 as [|y l Hs IH Hhd]; simpl.
  - repeat constructor.
  - destruct (leb x y) eqn:E.
    + repeat constructor; done.
    + constructor; [done|].
      destruct Hhd as [|z l Hyz]; simpl.
      * constructor. by destruct (Htot x y) as [H|H]; [congruence|].
      * destruct (leb x z); constructor; [|done].
        by destruct (Htot x y) as [H|H]; [congruence|].
Qed.

Lemma sorted_with_Sorted {A : Type} (leb : A -> A -> bool) (l : list A) :
  (forall a b, leb a b = true \/ leb b a = true) ->
  Sorted (fun a b => leb a b = true) (sorted_with leb l).
Proof using Type.
  intros Htot. induction l as [|x l IH]; simpl; [constructor|].
  by apply insert_sorted_Sorted.
Qed.

Lemma StronglySorted_rev {A : Type} (R : A -> A -> Prop) (l : list A) :
  StronglySorted R l -> StronglySorted (fun a b => R b a) (rev l).
Proof using Type.
  induction 1 as [|x l Hs IH Hall]; simpl; [constructor|].
  apply StronglySorted_app_2; [|done|repeat constructor].
  intros a b Ha Hb. apply list_elem_of_singleton in Hb as ->.
  rewrite Forall_forall in Hall. apply Hall.
  apply list_elem_of_In. apply list_elem_of_In, in_rev in Ha. done.
Qed.

(** Stability: the entries with a given key keep their order. *)
Lemma insert_sorted_key_filter {A : Type} (key : A -> Z) (k : Z) (x : A)
  (l : list A) :
  List.filter (fun a => key a =? k)
    (insert_sorted (fun a b => key a <=? key b) x l)
  = List.filter (fun a => key a =? k) (x :: l).
Proof using Type.
  induction l as [|y l IH]; [done|].
  cbn [insert_sorted]. destruct (Z.leb_spec (key x) (key y)) as [Hle|Hlt]; [done|].
  cbn [List.filter] in *. rewrite IH.
  destruct (Z.eqb_spec (key x) k), (Z.eqb_spec (key y) k); try done. lia.
Qed.

Lemma sorted_key_stable {A : Type} (key : A -> Z) (k : Z) (l : list A) :
  List.filter (fun a => key a =? k) (sorted_key key l)
  = List.filter (fun a => key a =? k) l.
Proof using Type.
  unfold sorted_key, sorted_with. induction l as [|x l IH]; [done|].
  cbn [foldr]. rewrite insert_sorted_key_filter. cbn [List.filter].
  by rewrite IH.
Qed.

Lemma sorted_key_reverse_stable {A : Type} (key : A -> Z) (k : Z) (l : list A) :
  List.filter (fun a => key a =? k) (sorted_key_reverse key l)
  = List.filter (fun a => key a =? k) l.
Proof using Type.
  unfold sorted_key_reverse.
  by rewrite List.filter_rev, sorted_key_stable, List.filter_rev, rev_involutive.
Qed.

Lemma Sorted_weaken {A : Type} (R R' : A -> A -> Prop) (l : list A) :
  (forall a b, R a b -> R' a b) -> Sorted R l -> Sorted R' l.
Proof using Type.
  intros Himp. induction 1 as [|x l Hs IH Hhd]; constructor; [done|].
  destruct Hhd; constructor. by apply Himp.
Qed.

Lemma sorted_key_ascending {A : Type} (key : A -> Z) (l : list A) :
  StronglySorted (fun a b => key a <= key b) (sorted_key key l).
Proof using Type.
  apply Sorted.Sorted_StronglySorted.
  - intros a b c. lia.
  - apply Sorted_weaken with (R := fun a b => (key a <=? key b) = true).
    + intros a b. apply Z.leb_le.
    + apply (sorted_with_Sorted (fun a b => key a <=? key b)). intros a b.
      destruct (Z.leb_spec (key a) (key b)); [by left|right].
      apply Z.leb_le. lia.
Qed.

Lemma sorted_key_reverse_descending {A : Type} (key : A -> Z) (l : list A) :
  StronglySorted (fun a b => key b <= key a) (sorted_key_reverse key l).
Proof using Type. apply StronglySorted_rev, sorted_key_ascending. Qed.

Lemma sorted_key_reverse_perm {A : Type} (key : A -> Z) (l : list A) :
  sorted_key_reverse key l ≡ₚ l.
Proof using Type.
  unfold sorted_key_reverse, sorted_key.
  by rewrite <- Permutation_rev, sorted_with_perm, <- Permutation_rev.
Qed.

(** The order on strings is total and transitive. *)
Lemma str_leb_total (a b : str) : str_leb a b = true \/ str_leb b a = true.
Proof using Type.
  revert b; induction a as [|x a IH]; intros [|y b]; simpl; auto.
  destruct (N.ltb_spec x y), (N.ltb_spec y x); simpl; auto.
  assert (x = y) as -> by lia. rewrite N.eqb_refl. simpl. apply IH.
Qed.

Lemma str_leb_trans (a b c : str) :
  str_leb a b = true -> str_leb b c = true -> str_leb a c = true.
Proof using Type.
  revert b c; induction a as [|x a IH]; intros [|y b] [|z c]; simpl; try done.
  destruct (N.ltb_spec x y), (N.ltb_spec y z), (N.ltb_spec x z); simpl;
    try done; try lia;
    destruct (N.eqb_spec x y), (N.eqb_spec y z), (N.eqb_spec x z); simpl;
    try done; try lia.
  apply IH.
Qed.

Lemma sorted_str_sorted (l : list str) : StronglySorted str_le (sorted_str l).
Proof using Type.
  apply Sorted.Sorted_StronglySorted.
  - intros a b c. apply str_leb_trans.
  - apply (sorted_with_Sorted str_leb), str_leb_total.
Qed.

(** ** The classifier *)

(** A conditional [append] in a loop selects and maps. *)
Lemma filter_flat_map_select {A B : Type} (c : A -> bool) (mk : A -> B)
  (p : B -> bool) (l : list A) :
  List.filter p (flat_map (fun a => if c a then [mk a] else []) l)
  = map mk (List.filter (fun a => c a && p (mk a)) l).
Proof using Type.
  induction l as [|a l IH]; [done|].
  cbn [flat_map List.filter]. rewrite List.filter_app, IH.
  destruct (c a); simpl; [|done]. by destruct (p (mk a)).
Qed.

Lemma elem_of_flat_map_select {A B : Type} (c : A -> bool) (mk : A -> B)
  (b : B) (l : list A) :
  b ∈ flat_map (fun a => if c a then [mk a] else []) l
  <-> exists a, a ∈ l /\ c a = true /\ b = mk a.
Proof using Type.
  rewrite list_elem_of_In, in_flat_map. split.
  - intros (a & Ha & Hb). exists a. rewrite list_elem_of_In.
    destruct (c a); simpl in Hb; [|done]. by destruct Hb as [<-|[]].
  - intros (a & Ha & Hc & ->). exists a. rewrite <- list_elem_of_In.
    split; [done|]. rewrite Hc. by left.
Qed.

Lemma find_orphans_select (self : LinkGraphAnalyzer) :
  find_orphans self
  = sorted_str (flat_map (fun item => if is_orphan item then [item.1] else [])
                         (metrics self)).
Proof using Type.
  unfold find_orphans, is_orphan. f_equal. apply flat_map_ext. intros item.
  by destruct (inbound item.2 =? 0).
Qed.

(** C9: the orphan list holds exactly the pages of the metrics mapping
    with no inbound link other than the homepage, once per entry, in
    lexicographic order; the homepage is never in it. *)
Theorem find_orphans_spec (self : LinkGraphAnalyzer) :
  (forall page, page ∈ find_orphans self
     <-> (exists m, (page, m) ∈ metrics self /\ inbound m = 0) /\ page <> lit "/")
  /\ find_orphans self
       ≡ₚ map fst (List.filter is_orphan (metrics self))
  /\ StronglySorted str_le (find_orphans self)
  /\ lit "/" ∉ find_orphans self.
Proof using Type.
  assert (Hmem : forall page, page ∈ find_orphans self
     <-> (exists m, (page, m) ∈ metrics self /\ inbound m = 0) /\ page <> lit "/").
  { intros page. rewrite find_orphans_select.
    unfold sorted_str. rewrite sorted_with_perm, elem_of_flat_map_select.
    unfold is_orphan. split.
    - intros ([p m] & Hin & Hc & ->). simpl in *.
      apply andb_true_iff in Hc as [H0 Hne].
      apply Z.eqb_eq in H0. apply negb_true_iff, bool_decide_eq_false in Hne.
      split; [by exists m | done].
    - intros [(m & Hin & H0) Hne]. exists (page, m). simpl.
      split; [done|]. split; [|done].
      apply andb_true_iff. split; [by apply Z.eqb_eq|].
      by apply negb_true_iff, bool_decide_eq_false. }
  split; [done|]. split; [|split].
  - clear Hmem.
    rewrite find_orphans_select. unfold sorted_str. rewrite sorted_with_perm.
    induction (metrics self) as [|item l IH]; [done|].
    cbn [flat_map List.filter].
    destruct (is_orphan item); cbn [app map]; [by apply Permutation_cons | done].
  - apply sorted_str_sorted.
  - intros H. apply Hmem in H as [_ H]. done.
Qed.

(** C7 (amended): each list is sorted by its count (ascending inbound,
    descending outbound, descending inbound), and for every value of the
    count the pages having it stand in the order of the metrics
    mapping: the sort is stable and no comparison looks at the page. *)
Theorem finders_sorted_by_count_stable (self : LinkGraphAnalyzer)
  (underlinked_threshold overlinked_threshold min_inbound max_outbound : Z) :
  (StronglySorted (fun a b => ul_inbound a <= ul_inbound b)
     (find_underlinked self underlinked_threshold)
   /\ forall k,
       map ul_url (List.filter (fun e => ul_inbound e =? k)
                     (find_underlinked self underlinked_threshold))
       = map fst (List.filter
                    (fun item => is_underlinked underlinked_threshold item
                                 && (inbound item.2 =? k))
                    (metrics self)))
  /\ (StronglySorted (fun a b => ol_outbound b <= ol_outbound a)
        (find_overlinked self overlinked_threshold)
      /\ forall k,
          map ol_url (List.filter (fun e => ol_outbound e =? k)
                        (find_overlinked self overlinked_threshold))
          = map fst (List.filter
                       (fun item => is_overlinked overlinked_threshold item
                                    && (outbound item.2 =? k))
                       (metrics self)))
  /\ (StronglySorted (fun a b => sk_inbound b <= sk_inbound a)
        (find_link_sinks self min_inbound max_outbound)
      /\ forall k,
          map sk_url (List.filter (fun e => sk_inbound e =? k)
                        (find_link_sinks self min_inbound max_outbound))
          = map fst (List.filter
                       (fun item => is_sink min_inbound max_outbound item
                                    && (inbound item.2 =? k))
                       (metrics self))).
Proof using Type.
  repeat split.
  - apply sorted_key_ascending.
  - intros k. unfold find_underlinked. rewrite sorted_key_stable.
    unfold underlinked_candidates.
    rewrite (filter_flat_map_select (is_underlinked underlinked_threshold)
               (fun item => {| ul_url := item.1; ul_inbound := inbound item.2;
                               ul_inbound_from := inbound_from item.2 |})).
    by rewrite map_map.
  - apply sorted_key_reverse_descending.
  - intros k. unfold find_overlinked. rewrite sorted_key_reverse_stable.
    unfold overlinked_candidates.
    rewrite (filter_flat_map_select (is_overlinked overlinked_threshold)
               (fun item => {| ol_url := item.1; ol_outbound := outbound item.2 |})).
    by rewrite map_map.
  - apply sorted_key_reverse_descending.
  - intros k. unfold find_link_sinks. rewrite sorted_key_reverse_stable.
    unfold sink_candidates.
    rewrite (filter_flat_map_select (is_sink min_inbound max_outbound)
               (fun item => {| sk_url := item.1; sk_inbound := inbound item.2;
                               sk_outbound := outbound item.2 |})).
    by rewrite map_map.
Qed.

(** ** The metrics calculator *)

Lemma dict_get_set_eq {V : Type} (k : str) (v : V) (d : list (str * V)) :
  dict_get k (dict_set k v d) = Some v.
Proof using Type.
  induction d as [|[k' v'] d IH]; simpl.
  - by rewrite bool_decide_eq_true_2.
  - destruct (bool_decide (k = k')) eqn:E; simpl.
    + by rewrite bool_decide_eq_true_2.
    + by rewrite E.
Qed.

Lemma dict_get_set_ne {V : Type} (k k' : str) (v : V) (d : list (str * V)) :
  k <> k' -> dict_get k' (dict_set k v d) = dict_get k' d.
Proof using Type.
  intros Hne. induction d as [|[k0 v0] d IH]; simpl.
  - by rewrite bool_decide_eq_false_2.
  - destruct (bool_decide (k = k0)) eqn:E; simpl.
    + apply bool_decide_eq_true in E as <-.
      by rewrite !bool_decide_eq_false_2.
    + by rewrite IH.
Qed.

Lemma dict_get_foldl_set {V : Type} (f : str -> V) (pages : list str)
  (m0 : list (str * V)) (page : str) :
  dict_get page (foldl (fun m p => dict_set p (f p) m) m0 pages)
  = if bool_decide (page ∈ pages) then Some (f page) else dict_get page m0.
Proof using Type.
  revert m0. induction pages as [|p pages IH]; intros m0; simpl; [done|].
  rewrite IH. destruct (decide (page = p)) as [->|Hne].
  - rewrite (bool_decide_eq_true_2 (p ∈ p :: pages)) by apply list_elem_of_here.
    destruct (bool_decide (p ∈ pages)); [done | apply dict_get_set_eq].
  - rewrite dict_get_set_ne by done.
    destruct (decide (page ∈ pages)) as [Hin|Hnin].
    + rewrite !bool_decide_eq_true_2; [done | by right | done].
    + rewrite !bool_decide_eq_false_2; [done | | done].
      rewrite not_elem_of_cons. done.
Qed.

Lemma calculate_metrics_get (self : LinkGraphAnalyzer) (page : str) :
  page ∈ all_pages self ->
  dict_get page (metrics (calculate_metrics self))
  = Some (page_metrics self (build_inbound_from (link_graph self)) page).
Proof using Type.
  intros Hin. unfold calculate_metrics. cbn [metrics].
  rewrite dict_get_foldl_set, bool_decide_eq_true_2; [done|].
  by apply elem_of_elements.
Qed.

Lemma page_metrics_ratio_policy (self : LinkGraphAnalyzer)
  (inbound_from : gmap str (list str)) (page : str) :
  round2 fzero = fzero -> ratio_policy (page_metrics self inbound_from page).
Proof using Type.
  intros Hzero. unfold ratio_policy, page_metrics.
  cbn [inbound outbound ratio].
  set (i := Z.of_nat _). set (o := Z.of_nat _). unfold ratio_of.
  repeat split.
  - intros -> Hi. simpl. apply Z.ltb_lt in Hi. by rewrite Hi.
  - intros -> ->. simpl. by rewrite Hzero.
  - intros Ho. apply Z.eqb_neq in Ho. by rewrite Ho.
Qed.

(** C3: every page of the page set gets an entry whose ratio is the
    integer [-1] when it has inbound but no outbound links, [0.0] when
    it has neither, and [round(inbound / outbound, 2)] otherwise; and
    from an empty mapping, as [__init__] leaves it, these are the only
    entries. *)
Theorem calculate_metrics_ratio (self : LinkGraphAnalyzer) :
  round2 fzero = fzero ->
  (forall page, page ∈ all_pages self ->
     exists m,
       dict_get page (metrics (calculate_metrics self)) = Some m
       /\ url m = page
       /\ ratio_policy m)
  /\ (metrics self = [] ->
      forall page m,
        dict_get page (metrics (calculate_metrics self)) = Some m ->
        page ∈ all_pages self /\ ratio_policy m).
Proof using Type.
  intros Hzero. split.
  - intros page Hin. eexists. split; [by apply calculate_metrics_get|].
    split; [done | by apply page_metrics_ratio_policy].
  - intros Hempty page m. unfold calculate_metrics. cbn [metrics].
    rewrite dict_get_foldl_set, Hempty. case_bool_decide as Hin; [|done].
    intros [= <-]. split; [by apply elem_of_elements|].
    by apply page_metrics_ratio_policy.
Qed.

(** ** The link graph and its reverse *)

Lemma lookup_total_list (m : gmap str (list str)) (k : str) :
  m !!! k = default [] (m !! k).
Proof using Type. by rewrite lookup_total_alt. Qed.

Lemma lookup_add_inbound (s : str) (inb : gmap str (list str)) (t t' : str) :
  default [] (add_inbound s inb t !! t')
  = if bool_decide (t = t') then default [] (inb !! t) ++ [s]
    else default [] (inb !! t').
Proof using Type.
  unfold add_inbound. rewrite lookup_total_list.
  destruct (decide (t = t')) as [->|Hne].
  - by rewrite lookup_insert_eq, bool_decide_eq_true_2.
  - by rewrite lookup_insert_ne, bool_decide_eq_false_2.
Qed.

Lemma elem_of_inbound_targets (s s' : str) (ts : list str)
  (acc : gmap str (list str)) (t : str) :
  s' ∈ default [] (foldl (add_inbound s) acc ts !! t)
  <-> s' ∈ default [] (acc !! t) \/ (s' = s /\ t ∈ ts).
Proof using Type. forget_model.
  revert acc. induction ts as [|t0 ts IH]; intros acc; simpl.
  - split; [by left | intros [H|[_ H]]; [done | by apply elem_of_nil in H]].
  - rewrite IH, lookup_add_inbound, elem_of_cons.
    destruct (decide (t0 = t)) as [->|Hne].
    + rewrite bool_decide_eq_true_2, elem_of_app, list_elem_of_singleton by done.
      intuition.
    + rewrite bool_decide_eq_false_2 by done. intuition congruence.
Qed.

Lemma elem_of_inbound_items (items : list (str * list str))
  (acc : gmap str (list str)) (s t : str) :
  s ∈ default []
        (foldl (fun inb item => foldl (add_inbound item.1) inb item.2) acc items
         !! t)
  <-> s ∈ default [] (acc !! t) \/ exists ts, (s, ts) ∈ items /\ t ∈ ts.
Proof using Type.
  revert acc. induction items as [|[s0 ts0] items IH]; intros acc; simpl.
  - split; [by left|]. intros [H|(ts & H & _)]; [done|].
    by apply elem_of_nil in H.
  - rewrite IH, elem_of_inbound_targets. split.
    + intros [[H|[-> H]]|(ts & H & Ht)].
      * by left.
      * right. exists ts0. split; [apply list_elem_of_here | done].
      * right. exists ts. split; [by apply list_elem_of_further | done].
    + intros [H|(ts & H & Ht)]; [by left; left|].
      apply elem_of_cons in H as [[= -> ->]|H].
      * by left; right.
      * right. by exists ts.
Qed.

(** The reverse index holds exactly the reversed edges. *)
Lemma build_inbound_from_spec (g : gmap str (list str)) (s t : str) :
  s ∈ default [] (build_inbound_from g !! t) <-> t ∈ default [] (g !! s).
Proof using Type.
  unfold build_inbound_from. rewrite elem_of_inbound_items, lookup_empty.
  split.
  - intros [H|(ts & H & Ht)]; [by apply elem_of_nil in H|].
    apply elem_of_map_to_list in H. by rewrite H.
  - intros H. right. destruct (g !! s) as [ts|] eqn:E.
    + exists ts. by rewrite elem_of_map_to_list.
    + by apply elem_of_nil in H.
Qed.

Lemma total_len_insert_notin (g : gmap str (list str)) (t : str)
  (v : list str) (pages : list str) :
  t ∉ pages -> total_len (<[t := v]> g) pages = total_len g pages.
Proof using Type.
  unfold total_len. induction pages as [|p pages IH]; [done|].
  rewrite not_elem_of_cons. intros [Hne Hnin]. simpl.
  by rewrite lookup_insert_ne, IH.
Qed.

Lemma total_len_insert_in (g : gmap str (list str)) (t : str)
  (v : list str) (pages : list str) :
  NoDup pages -> t ∈ pages ->
  (total_len (<[t := v]> g) pages + length (default [] (g !! t))
   = total_len g pages + length v)%nat.
Proof using Type.
  induction 1 as [|p pages Hnin Hnd IH]; intros Hin.
  - by apply elem_of_nil in Hin.
  - unfold total_len in *. simpl. destruct (decide (t = p)) as [->|Hne].
    + rewrite lookup_insert_eq. simpl.
      pose proof (total_len_insert_notin g p v pages Hnin) as H.
      unfold total_len in H. rewrite H. lia.
    + rewrite lookup_insert_ne by done.
      apply elem_of_cons in Hin as [?|Hin]; [done|]. specialize (IH Hin). lia.
Qed.

Lemma total_len_add_inbound (s t : str) (acc : gmap str (list str))
  (pages : list str) :
  NoDup pages -> t ∈ pages ->
  total_len (add_inbound s acc t) pages = S (total_len acc pages).
Proof using Type.
  intros Hnd Hin. unfold add_inbound. rewrite lookup_total_list.
  pose proof (total_len_insert_in acc t (default [] (acc !! t) ++ [s])
                pages Hnd Hin) as H.
  rewrite length_app in H. simpl in H. lia.
Qed.

Lemma total_len_inbound_targets (s : str) (ts : list str)
  (acc : gmap str (list str)) (pages : list str) :
  NoDup pages -> (forall t, t ∈ ts -> t ∈ pages) ->
  total_len (foldl (add_inbound s) acc ts) pages
  = (total_len acc pages + length ts)%nat.
Proof using Type.
  intros Hnd. revert acc. induction ts as [|t ts IH]; intros acc Hsub; simpl.
  - lia.
  - rewrite IH by (intros; apply Hsub; by right).
    rewrite total_len_add_inbound; [lia | done | apply Hsub; by left].
Qed.

Lemma total_len_inbound_items (items : list (str * list str))
  (acc : gmap str (list str)) (pages : list str) :
  NoDup pages ->
  (forall s ts t, (s, ts) ∈ items -> t ∈ ts -> t ∈ pages) ->
  total_len (foldl (fun inb item => foldl (add_inbound item.1) inb item.2)
               acc items) pages
  = (total_len acc pages + sum_list_with (fun item => length item.2) items)%nat.
Proof using Type.
  intros Hnd. revert acc.
  induction items as [|[s ts] items IH]; intros acc Hsub; simpl.
  - lia.
  - rewrite IH
      by (intros s' ts' t' H Ht; apply (Hsub s' ts' t'); [by right | done]).
    rewrite total_len_inbound_targets; [lia | done |].
    intros t Ht. apply (Hsub s ts t); [by left | done].
Qed.

Lemma total_len_empty (pages : list str) : total_len ∅ pages = 0%nat.
Proof using Type.
  unfold total_len. induction pages as [|p pages IH]; [done|].
  simpl. by rewrite lookup_empty, IH.
Qed.

(** Every edge is counted once from either side. *)
Lemma total_len_graph (g : gmap str (list str)) (pages : list str) :
  NoDup pages ->
  (forall s, is_Some (g !! s) -> s ∈ pages) ->
  total_len g pages
  = sum_list_with (fun item : str * list str => length item.2) (map_to_list g).
Proof using Type.
  intros Hnd. induction g as [|s ts g Hnone IH] using map_ind; intros Hdom.
  - by rewrite total_len_empty, map_to_list_empty.
  - rewrite map_to_list_insert by done. simpl.
    rewrite <- IH.
    + pose proof (total_len_insert_in g s ts pages Hnd) as H.
      rewrite Hnone in H. simpl in H. rewrite Nat.add_0_r in H.
      rewrite H; [lia|]. apply Hdom. rewrite lookup_insert_eq. by eexists.
    + intros s' Hs'. apply Hdom. rewrite lookup_insert_is_Some.
      destruct (decide (s = s')); [by left | by right].
Qed.

Lemma build_graph_step_closed (self : LinkGraphAnalyzer) (file : html_file) :
  graph_closed self -> graph_closed (build_graph_step self file).
Proof using Type. forget_model.
  intros Hc. unfold build_graph_step.
  destruct (is_excluded self _); [done|].
  destruct file.2 as [hrefs|]; intros s ts; cbn [link_graph all_pages].
  - rewrite lookup_insert_Some. intros [[<- <-]|[Hne Hs]].
    + split; [set_solver|]. intros t Ht.
      apply elem_of_union_l, elem_of_list_to_set. done.
    + destruct (Hc s ts Hs) as [H1 H2]. split; [set_solver|].
      intros t Ht. specialize (H2 t Ht). set_solver.
  - intros Hs. destruct (Hc s ts Hs) as [H1 H2]. split; [set_solver|].
    intros t Ht. specialize (H2 t Ht). set_solver.
Qed.

Lemma build_graph_closed (self : LinkGraphAnalyzer) (files : list html_file) :
  graph_closed self -> graph_closed (build_graph self files).
Proof using Type.
  unfold build_graph. revert self.
  induction files as [|f files IH]; intros self Hc; simpl; [done|].
  by apply IH, build_graph_step_closed.
Qed.

Lemma build_graph_metrics (self : LinkGraphAnalyzer) (files : list html_file) :
  metrics (build_graph self files) = metrics self.
Proof using Type.
  unfold build_graph. revert self.
  induction files as [|f files IH]; intros self; simpl; [done|].
  rewrite IH. unfold build_graph_step.
  destruct (is_excluded self _); [done|]. by destruct f.2.
Qed.

Lemma dict_set_fresh {V : Type} (k : str) (v : V) (d : list (str * V)) :
  dict_get k d = None -> dict_set k v d = d ++ [(k, v)].
Proof using Type.
  induction d as [|[k' v'] d IH]; simpl; [done|].
  destruct (bool_decide (k = k')); [done|]. intros H. by rewrite IH.
Qed.

Lemma foldl_dict_set_fresh {V : Type} (f : str -> V) (pages : list str)
  (m0 : list (str * V)) :
  NoDup pages -> (forall p, p ∈ pages -> dict_get p m0 = None) ->
  foldl (fun m p => dict_set p (f p) m) m0 pages
  = m0 ++ map (fun p => (p, f p)) pages.
Proof using Type.
  intros Hnd. revert m0.
  induction Hnd as [|p pages Hnin Hnd IH]; intros m0 Hfresh; simpl.
  - by rewrite app_nil_r.
  - rewrite IH.
    + rewrite dict_set_fresh by (apply Hfresh; by left).
      by rewrite <- app_assoc.
    + intros q Hq. rewrite dict_get_set_ne; [apply Hfresh; by right|].
      intros ->. done.
Qed.

Lemma sum_Z_of_nat {A : Type} (h : A -> nat) (l : list A) :
  sum_Z (map (fun a => Z.of_nat (h a)) l) = Z.of_nat (sum_list_with h l).
Proof using Type.
  induction l as [|a l IH]; [done|].
  unfold sum_Z in *. cbn [map foldr sum_list_with]. rewrite IH. lia.
Qed.

(** C2: in the graph the builder produces, the outbound list of
    [source] holds [target] exactly when the reverse index of [target]
    holds [source]; the counts in the metrics are the lengths of these
    lists; and over all pages the outbound counts and the inbound counts
    have the same sum. *)
Theorem inbound_mirrors_outbound (excluded_paths excluded_extensions
                                    : option (list str))
  (html_files : list html_file) :
  let self :=
    calculate_metrics
      (build_graph (new_analyzer excluded_paths excluded_extensions) html_files) in
  let inbound_from := build_inbound_from (link_graph self) in
  (forall source target,
      target ∈ default [] (link_graph self !! source)
      <-> source ∈ default [] (inbound_from !! target))
  /\ (forall page m, dict_get page (metrics self) = Some m ->
        outbound m = Z.of_nat (length (default [] (link_graph self !! page)))
        /\ inbound m = Z.of_nat (length (default [] (inbound_from !! page))))
  /\ sum_Z (map (fun item => outbound item.2) (metrics self))
     = sum_Z (map (fun item => inbound item.2) (metrics self)).
Proof using Type.
  set (built := build_graph (new_analyzer excluded_paths excluded_extensions)
                  html_files).
  intros self inb.
  assert (Hg : link_graph self = link_graph built) by done.
  assert (Hm0 : metrics built = []) by by (unfold built; rewrite build_graph_metrics).
  assert (Hclosed : graph_closed built).
  { apply build_graph_closed. intros s ts H. cbn in H.
    by rewrite lookup_empty in H. }
  split; [|split].
  - intros s t. symmetry. apply build_inbound_from_spec.
  - intros page m. unfold self, calculate_metrics. cbn [metrics].
    rewrite dict_get_foldl_set, Hm0. case_bool_decide; [|done].
    intros [= <-]. done.
  - unfold self, calculate_metrics. cbn [metrics].
    rewrite Hm0, foldl_dict_set_fresh; [|apply NoDup_elements|done].
    cbn [app]. rewrite !map_map. cbn [snd page_metrics outbound inbound].
    rewrite (sum_Z_of_nat (fun p => length (default [] (link_graph built !! p)))).
    rewrite (sum_Z_of_nat
               (fun p => length (default []
                                   (build_inbound_from (link_graph built) !! p)))).
    f_equal. change (total_len (link_graph built) (elements (all_pages built))
                     = total_len (build_inbound_from (link_graph built))
                         (elements (all_pages built))).
    rewrite total_len_graph.
    + unfold build_inbound_from. rewrite total_len_inbound_items.
      * by rewrite total_len_empty.
      * apply NoDup_elements.
      * intros s ts t Hs Ht. apply elem_of_map_to_list in Hs.
        apply elem_of_elements. by apply (Hclosed s ts Hs).
    + apply NoDup_elements.
    + intros s [ts Hs]. apply elem_of_elements.
      by destruct (Hclosed s ts Hs) as [H _].
Qed.

(** ** The external link checker *)

(** One iteration of the loop of [check_url]. *)
Lemma attempts_S (self : HTTPLinkChecker) (url : str) (a n : nat) :
  attempts self url a (S n)
  = match probe url a with
    | (l, Ok answer) => (l, Ok answer)
    | (l, Raise e) =>
        match handler self a e with
        | (l', Ok (Some answer)) => (l ++ l', Ok answer)
        | (l', Ok None) =>
            let (l'', r) := attempts self url (S a) n in (l ++ l' ++ l'', r)
        | (l', Raise e') => (l ++ l', Raise e')
        end
    end.
Proof using Type.
  cbn [attempts]. unfold mbind, io_bind, mret, io_ret, try_except.
  destruct (probe url a) as [l [answer|e]].
  - by rewrite !app_nil_r.
  - destruct (handler self a e) as [l' [[answer|]|e']].
    + by rewrite app_nil_r.
    + destruct (attempts self url (S a) n) as [l'' r]. by rewrite app_assoc.
    + done.
Qed.

Lemma probe_log (url : str) (k : nat) :
  (probe url k).1 = [Head url] \/ (probe url k).1 = [Head url; Get url].
Proof using Type.
  unfold probe, call, mbind, io_bind, mret, io_ret.
  destruct (requests_head url k) as [resp|e]; [|by left].
  destruct (bool_decide _); [|by left].
  destruct (requests_get url k) as [resp'|e]; [|by right].
  destruct (read_first_chunk url k) as [[]|e]; by right.
Qed.

Lemma probe_raises (url : str) (k : nat) (e : exn) :
  (probe url k).2 = Raise e ->
  requests_head url k = Raise e \/ requests_get url k = Raise e
  \/ read_first_chunk url k = Raise e.
Proof using Type.
  unfold probe, call, mbind, io_bind, mret, io_ret.
  destruct (requests_head url k) as [resp|e0]; [|intros [= ->]; by left].
  destruct (bool_decide _); [|done].
  destruct (requests_get url k) as [resp'|e0]; [|intros [= ->]; by right; left].
  destruct (read_first_chunk url k) as [[]|e0]; [done|].
  intros [= ->]. by right; right.
Qed.

(** A timeout before the last attempt sleeps one second and goes on. *)
Lemma attempts_timeouts (self : HTTPLinkChecker) (url : str) (k : nat) :
  forall a n : nat,
    Z.of_nat (a + n) = retry_count self ->
    (k < n)%nat ->
    (forall j, (j < k)%nat ->
       exists e, (probe url (a + j)).2 = Raise e /\ is_Timeout e = true) ->
    attempts self url a n
    = (retried_log url a k ++ (attempts self url (a + k) (n - k)).1,
       (attempts self url (a + k) (n - k)).2).
Proof using Type.
  unfold retried_log. induction k as [|k IH]; intros a n Hrc Hk Hto.
  - rewrite Nat.add_0_r, Nat.sub_0_r. simpl. by destruct (attempts _ _ _ _).
  - destruct n as [|n]; [lia|]. rewrite attempts_S.
    destruct (Hto 0%nat ltac:(lia)) as (e & He & Het).
    rewrite Nat.add_0_r in He.
    destruct (probe url a) as [l r] eqn:Hp. simpl in He. subst r.
    unfold handler. rewrite Het.
    replace (Z.of_nat a =? retry_count self - 1) with false
      by (symmetry; apply Z.eqb_neq; lia).
    unfold call, mbind, io_bind, mret, io_ret. cbn [app].
    rewrite (IH (S a) n); [| lia | lia |].
    + replace (S a + k)%nat with (a + S k)%nat by lia.
      replace (S n - S k)%nat with (n - k)%nat by lia.
      cbn [seq map concat]. rewrite Hp. cbn [fst].
      by rewrite <- !app_assoc.
    + intros j Hj. replace (S a + j)%nat with (a + S j)%nat by lia.
      apply Hto. lia.
Qed.

(** C6 (amended): with [retry_count >= 1] and every attempt timing out,
    [check_url] makes [retry_count] attempts in all, sleeps one second
    between two attempts, and answers [(None, "Timeout", True)]. *)
Theorem check_url_timeout (self : HTTPLinkChecker) (url : str) :
  1 <= retry_count self ->
  (forall j, (j < Z.to_nat (retry_count self))%nat ->
     exists e, (probe url j).2 = Raise e /\ is_Timeout e = true) ->
  let n := Z.to_nat (retry_count self) in
  (check_url self url).2 = Ok timeout_answer
  /\ (check_url self url).1
     = retried_log url 0 (n - 1) ++ (probe url (n - 1)).1
  /\ length (List.filter is_head (check_url self url).1) = n
  /\ List.filter is_sleep (check_url self url).1 = replicate (n - 1) (Sleep 1).
Proof using Type.
  intros Hrc Hto n.
  assert (Hlog : forall a k,
            length (List.filter is_head (retried_log url a k)) = k
            /\ List.filter is_sleep (retried_log url a k) = replicate k (Sleep 1)).
  { intros a k. revert a. unfold retried_log.
    induction k as [|k IH]; intros a; [done|].
    cbn [seq map concat]. rewrite !List.filter_app, !length_app.
    destruct (IH (S a)) as [-> ->].
    destruct (probe_log url a) as [-> | ->]; done. }
  assert (Hrun : check_url self url
                 = (retried_log url 0 (n - 1) ++ (probe url (n - 1)).1,
                    Ok timeout_answer)).
  { unfold check_url. fold n.
    rewrite (attempts_timeouts self url (n - 1) 0 n); [| lia | lia |].
    - replace (n - (n - 1))%nat with 1%nat by lia. rewrite attempts_S.
      destruct (Hto (n - 1)%nat ltac:(lia)) as (e & He & Het).
      cbn [Nat.add]. destruct (probe url (n - 1)) as [l r]. simpl in He. subst r.
      unfold handler. rewrite Het.
      replace (Z.of_nat (n - 1) =? retry_count self - 1) with true
        by (symmetry; apply Z.eqb_eq; lia).
      unfold mret, io_ret. cbn [fst snd]. by rewrite app_nil_r.
    - intros j Hj. apply Hto. lia. }
  rewrite Hrun. cbn [fst snd]. repeat split.
  - rewrite List.filter_app, length_app.
    destruct (Hlog 0%nat (n - 1)%nat) as [-> _].
    destruct (probe_log url (n - 1)) as [-> | ->]; simpl; lia.
  - rewrite List.filter_app.
    destruct (Hlog 0%nat (n - 1)%nat) as [_ ->].
    destruct (probe_log url (n - 1)) as [-> | ->]; simpl; by rewrite app_nil_r.
Qed.

(** C5 (amended): an attempt that fails with a connection error ends
    [check_url] at once, with no sleep and no further request; the
    answer has no status code and the message
    ["Connection Error (Domain may not exist)"]. *)
Theorem check_url_connection_error (self : HTTPLinkChecker) (url : str)
  (k : nat) (e : exn) :
  Z.of_nat k < retry_count self ->
  (forall j, (j < k)%nat ->
     exists e', (probe url j).2 = Raise e' /\ is_Timeout e' = true) ->
  (probe url k).2 = Raise e ->
  is_Timeout e = false ->
  is_ConnectionError e = true ->
  (check_url self url).2 = Ok connection_error_answer
  /\ (check_url self url).1 = retried_log url 0 k ++ (probe url k).1.
Proof using Type.
  intros Hk Hto He Het Hec. unfold check_url.
  set (n := Z.to_nat (retry_count self)).
  rewrite (attempts_timeouts self url k 0 n); [| lia | lia | done].
  cbn [Nat.add fst snd].
  destruct (n - k)%nat as [|m] eqn:Hm; [lia|]. rewrite attempts_S.
  destruct (probe url k) as [l r]. simpl in He. subst r.
  unfold handler. rewrite Het, Hec. unfold mret, io_ret. cbn [fst snd].
  by rewrite app_nil_r.
Qed.

Lemma handler_catches (self : HTTPLinkChecker) (a : nat) (e : exn) :
  is_Exception e = true -> exists l r, handler self a e = (l, Ok r).
Proof using Type.
  intros He. unfold handler, call, mbind, io_bind, mret, io_ret. rewrite He.
  repeat match goal with
         | |- context [if ?b then _ else _] => destruct b
         end; eauto.
Qed.

Section NoCancellation.

(** Absent cancellation: whatever the network raises is an [Exception]. *)
Hypothesis head_raises_Exception :
  forall url k e, requests_head url k = Raise e -> is_Exception e = true.
Hypothesis get_raises_Exception :
  forall url k e, requests_get url k = Raise e -> is_Exception e = true.
Hypothesis read_raises_Exception :
  forall url k e, read_first_chunk url k = Raise e -> is_Exception e = true.

Lemma attempts_returns (self : HTTPLinkChecker) (url : str) (n a : nat) :
  exists l answer, attempts self url a n = (l, Ok answer).
Proof using head_raises_Exception get_raises_Exception read_raises_Exception.
  revert a. induction n as [|n IH]; intros a.
  - by eexists _, _.
  - rewrite attempts_S. destruct (probe url a) as [l [answer|e]] eqn:Hp.
    + by eexists _, _.
    + assert (He : is_Exception e = true).
      { destruct (probe_raises url a e) as [H|[H|H]]; [by rewrite Hp | | |]; eauto. }
      destruct (handler_catches self a e He) as (l' & r & ->).
      destruct r as [answer|]; [by eexists _, _|].
      destruct (IH (S a)) as (l'' & answer & ->). by eexists _, _.
Qed.

Lemma check_single_returns (self : HTTPLinkChecker) (url : str) (info : url_info) :
  exists r, (check_single self url info).2 = Ok r /\ pr_url r = url.
Proof using head_raises_Exception get_raises_Exception read_raises_Exception.
  unfold check_single, check_url.
  destruct (attempts_returns self url (Z.to_nat (retry_count self)) 0)
    as (l & answer & ->).
  unfold mbind, io_bind, mret, io_ret. by eexists.
Qed.

Lemma collect_returns (self : HTTPLinkChecker) (items : list (str * url_info))
  (acc : list ProbeResult) :
  exists rs,
    collect acc (map (fun item => (check_single self item.1 item.2).2) items)
    = (acc ++ rs, Ok tt)
    /\ map pr_url rs = map fst items.
Proof using head_raises_Exception get_raises_Exception read_raises_Exception.
  revert acc. induction items as [|[url info] items IH]; intros acc.
  - exists []. by rewrite app_nil_r.
  - cbn [map collect fst snd].
    destruct (check_single_returns self url info) as (r & -> & Hr).
    destruct (IH (acc ++ [r])) as (rs & -> & Hrs).
    exists (r :: rs). rewrite <- app_assoc. split; [done|].
    simpl. by rewrite Hr, Hrs.
Qed.

(** [check_urls] appends to [self.results], and returns that list: one
    new result per URL, after whatever earlier calls left there. *)
Lemma check_urls_appends (self : HTTPLinkChecker)
  (urls_with_info : gmap str url_info) :
  0 < max_workers self ->
  (forall l, as_completed l ≡ₚ l) ->
  exists rs,
    (check_urls self urls_with_info).2 = Ok (results self ++ rs)
    /\ results (check_urls self urls_with_info).1 = results self ++ rs
    /\ map pr_url rs ≡ₚ (map_to_list urls_with_info).*1.
Proof using head_raises_Exception get_raises_Exception read_raises_Exception.
  intros Hworkers Hperm. unfold check_urls.
  replace (max_workers self <=? 0) with false by (symmetry; apply Z.leb_gt; lia).
  destruct (collect_returns self (as_completed (map_to_list urls_with_info))
              (results self)) as (rs & -> & Hrs).
  exists rs. cbn [fst snd results]. repeat split.
  rewrite Hrs. apply fmap_Permutation, Hperm.
Qed.


End NoCancellation.

(** ** The false-positive filter *)

Lemma is_false_positive_spec (bot_blockers : list str) (ignore_codes : list Z)
  (result : ProbeResult) :
  is_false_positive bot_blockers ignore_codes result = true
  <-> reclassified bot_blockers ignore_codes result.
Proof using Type. forget_model.
  unfold is_false_positive, reclassified, status_in.
  set (url := str_lower (pr_url result)).
  assert (Hbots : existsb (fun domain => substring_of domain url) bot_blockers = true
                  <-> exists domain, domain ∈ bot_blockers
                                     /\ substring_of domain url = true).
  { rewrite existsb_exists. by setoid_rewrite list_elem_of_In. }
  assert (Hcodes : match pr_status_code result with
                   | Some c => existsb (Z.eqb c) ignore_codes
                   | None => false
                   end = true
                   <-> exists c, pr_status_code result = Some c /\ c ∈ ignore_codes).
  { destruct (pr_status_code result) as [c|].
    - rewrite existsb_exists. split.
      + intros (c' & Hin & Heq). apply Z.eqb_eq in Heq as <-.
        exists c. by rewrite list_elem_of_In.
      + intros (c' & [= <-] & Hin). exists c.
        rewrite <- list_elem_of_In, Z.eqb_eq. done.
    - split; [done | by intros (c & H & _)]. }
  rewrite <- Hbots, <- Hcodes.
  destruct (startswith url (lit "mailto:")), (startswith url (lit "tel:")),
    (match pr_status_code result with Some _ => _ | None => _ end),
    (existsb _ bot_blockers); cbn; intuition congruence.
Qed.

Lemma filter_loop_spec (bot_blockers : list str) (ignore_codes : list Z)
  (results real_broken false_positives : list ProbeResult) :
  filter_loop bot_blockers ignore_codes results real_broken false_positives
  = (real_broken
       ++ List.filter
            (fun r => pr_is_broken r
                      && negb (is_false_positive bot_blockers ignore_codes r))
            results,
     false_positives
       ++ List.filter
            (fun r => pr_is_broken r
                      && is_false_positive bot_blockers ignore_codes r)
            results).
Proof using Type.
  revert real_broken false_positives.
  induction results as [|r results IH]; intros rb fp; cbn [filter_loop List.filter].
  - by rewrite !app_nil_r.
  - destruct (pr_is_broken r); cbn [negb andb]; [|apply IH].
    destruct (is_false_positive bot_blockers ignore_codes r); cbn [negb];
      rewrite IH, <- app_assoc; done.
Qed.

(** C8 (amended): each of the two lists is taken by itself: a supplied
    list that is not empty is the list in force, and an absent or an
    empty one is replaced by the built-in list; the broken results are
    split by exactly the two lists in force. *)
Theorem filter_uses_supplied_lists (results : list ProbeResult)
  (bot_blocker_domains : option (list str))
  (ignore_status_codes : option (list Z)) :
  exists domains codes,
    list_in_force default_bot_blockers bot_blocker_domains domains
    /\ list_in_force default_ignore_codes ignore_status_codes codes
    /\ let out := filter_false_positives results bot_blocker_domains
                    ignore_status_codes in
       forall r,
         (r ∈ out.2 <-> r ∈ results /\ pr_is_broken r = true
                        /\ reclassified domains codes r)
         /\ (r ∈ out.1 <-> r ∈ results /\ pr_is_broken r = true
                           /\ ~ reclassified domains codes r).
Proof using Type. forget_model.
  exists (or_default bot_blocker_domains default_bot_blockers),
         (or_default ignore_status_codes default_ignore_codes).
  split; [|split].
  - destruct bot_blocker_domains as [[|d ds]|]; by constructor.
  - destruct ignore_status_codes as [[|c cs]|]; by constructor.
  - unfold filter_false_positives.
    set (b := or_default bot_blocker_domains _).
    set (c := or_default ignore_status_codes _).
    intros r. rewrite filter_loop_spec. cbn [fst snd app].
    rewrite !list_elem_of_In, !filter_In, !andb_true_iff, negb_true_iff.
    rewrite <- is_false_positive_spec.
    destruct (is_false_positive b c r); intuition congruence.
Qed.

(** C10: a broken result lands in one of the two lists and not in the
    other; a result that is not broken lands in neither; nothing else
    is in them. *)
Theorem filter_partitions_broken (results : list ProbeResult)
  (bot_blocker_domains : option (list str))
  (ignore_status_codes : option (list Z)) :
  let out := filter_false_positives results bot_blocker_domains
               ignore_status_codes in
  (forall r, r ∈ results -> pr_is_broken r = true ->
     ((r ∈ out.1) /\ (r ∉ out.2)) \/ ((r ∉ out.1) /\ (r ∈ out.2)))
  /\ (forall r, pr_is_broken r = false -> (r ∉ out.1) /\ (r ∉ out.2))
  /\ out.1 ++ out.2 ≡ₚ List.filter pr_is_broken results.
Proof using Type. forget_model.
  unfold filter_false_positives.
  set (b := or_default bot_blocker_domains _).
  set (c := or_default ignore_status_codes _).
  rewrite filter_loop_spec. cbn [fst snd app]. split; [|split].
  - intros r Hin Hbr. rewrite !list_elem_of_In, !filter_In, Hbr.
    apply list_elem_of_In in Hin. cbn [andb].
    destruct (is_false_positive b c r); cbn [negb]; [right | left];
      intuition congruence.
  - intros r Hbr. rewrite !list_elem_of_In, !filter_In, Hbr. cbn [andb].
    intuition congruence.
  - induction results as [|r results IH]; [done|]. cbn [List.filter].
    destruct (pr_is_broken r); cbn [andb]; [|done].
    destruct (is_false_positive b c r); cbn [negb app].
    + rewrite <- Permutation_middle. by apply Permutation_cons.
    + by apply Permutation_cons.
Qed.

End Model.

(** * The model on concrete inputs *)

Arguments metrics {F} _.
Arguments find_orphans {F} _.
Arguments find_underlinked {F} _ _.
Arguments find_overlinked {F} _ _.
Arguments find_link_sinks {F} _ _ _.
Arguments Int {F} _.
Arguments Float {F} _.

Example normalize_url_strips_query_and_fragment :
  normalize_url (lit "blog/post?x=1#top") = lit "/blog/post/".
Proof. reflexivity. Qed.

Example normalize_url_keeps_file_names :
  normalize_url (lit "/a%20b/style.css") = lit "/a b/style.css".
Proof. reflexivity. Qed.

Example unquote_replaces_ill_formed_utf8 :
  unquote (lit "%E2%82%AC%zz%E2%82") = [8364; 37; 122; 122; 65533]%N.
Proof. reflexivity. Qed.

(** The analyzer after [build_graph] and [calculate_metrics] on the
    site of three pages. *)
Definition three_pages_analyzer : LinkGraphAnalyzer fraction :=
  calculate_metrics fraction exact_zero exact_truediv exact_round2
    (build_graph ascii_lower fraction (new_analyzer fraction None None)
       three_pages).

Example three_pages_metrics :
  (fun m => (inbound _ m, outbound _ m, ratio _ m))
    <$> dict_get (lit "/a/") (metrics three_pages_analyzer)
  = Some (1, 1, Float (1, 1))
  /\ (fun m => (inbound _ m, outbound _ m, ratio _ m))
        <$> dict_get (lit "/b/") (metrics three_pages_analyzer)
      = Some (1, 0, Int (-1))
  /\ (fun m => (inbound _ m, outbound _ m, ratio _ m))
        <$> dict_get (lit "/") (metrics three_pages_analyzer)
      = Some (0, 1, Float (0, 1))
  /\ find_orphans three_pages_analyzer = [].
Proof. vm_compute. done. Qed.

(** C1, as stated, fails: the second pass decodes what the first left. *)
Lemma normalize_url_not_idempotent :
  normalize_url (lit "%2523") = lit "/%23/"
  /\ normalize_url (normalize_url (lit "%2523")) = lit "/#/"
  /\ normalize_url (normalize_url (lit "%2523")) <> normalize_url (lit "%2523").
Proof. vm_compute. repeat split; discriminate. Qed.

Lemma normalize_url_idempotent_on_clean_witness :
  contains_char Chr.hash (normalize_url (lit "docs/guide?page=2")) = false
  /\ normalize_url (normalize_url (lit "docs/guide?page=2"))
      = normalize_url (lit "docs/guide?page=2").
Proof.
  split; [reflexivity|].
  apply (normalize_url_idempotent_on_clean (lit "docs/guide?page=2"));
    reflexivity.
Defined.

Lemma calculate_metrics_ratio_witness :
  exact_round2 exact_zero = exact_zero
  /\ (exists m,
        dict_get (lit "/b/") (metrics three_pages_analyzer) = Some m
        /\ url _ m = lit "/b/"
        /\ ratio _ m = Int (-1))
  /\ (exists m,
        dict_get (lit "/a/") (metrics three_pages_analyzer) = Some m
        /\ url _ m = lit "/a/"
        /\ ratio _ m = Float (exact_round2 (exact_truediv 1 1))).
Proof.
  assert (Hzero : exact_round2 exact_zero = exact_zero) by reflexivity.
  split; [exact Hzero|].
  destruct (calculate_metrics_ratio fraction exact_zero exact_truediv
              exact_round2
              (build_graph ascii_lower fraction
                 (new_analyzer fraction None None) three_pages)
              Hzero) as [Hall _].
  split.
  - destruct (Hall (lit "/b/")) as (m & Hget & Hurl & Hinf & _).
    + apply (bool_decide_unpack _). vm_compute. exact I.
    + exists m. split; [exact Hget|]. split; [exact Hurl|].
      vm_compute in Hget. injection Hget as <-. apply Hinf; reflexivity.
  - destruct (Hall (lit "/a/")) as (m & Hget & Hurl & _ & _ & Hdiv).
    + apply (bool_decide_unpack _). vm_compute. exact I.
    + exists m. split; [exact Hget|]. split; [exact Hurl|].
      vm_compute in Hget. injection Hget as <-. apply Hdiv. discriminate.
Defined.



(** C5, as stated, fails on the message: it is longer than
    ["Connection Error"]. *)
Lemma check_url_connection_error_message :
  check_url net_refused net_ok read_ok
    (new_checker 5 20 1 default_user_agent) (lit "http://localhost:9/")
  = ([Head (lit "http://localhost:9/")],
     Ok (None, lit "Connection Error (Domain may not exist)", true))
  /\ (check_url net_refused net_ok read_ok
        (new_checker 5 20 1 default_user_agent) (lit "http://localhost:9/")).2
     <> Ok (None, lit "Connection Error", true).
Proof. vm_compute. split; [reflexivity | discriminate]. Qed.

Lemma check_url_connection_error_witness :
  (probe net_timeout_then_refused net_ok read_ok (lit "http://localhost:9/") 1).2
  = Raise connection_refused
  /\ (check_url net_timeout_then_refused net_ok read_ok
        (new_checker 5 20 3 default_user_agent) (lit "http://localhost:9/")).2
     = Ok connection_error_answer
  /\ (check_url net_timeout_then_refused net_ok read_ok
        (new_checker 5 20 3 default_user_agent) (lit "http://localhost:9/")).1
     = [Head (lit "http://localhost:9/"); Sleep 1;
        Head (lit "http://localhost:9/")].
Proof.
  split; [reflexivity|].
  destruct (check_url_connection_error net_timeout_then_refused net_ok read_ok
              (new_checker 5 20 3 default_user_agent)
              (lit "http://localhost:9/") 1 connection_refused)
    as [Hanswer Hlog].
  - reflexivity.
  - intros [|j] Hj; [|lia]. exists read_timeout. split; reflexivity.
  - reflexivity.
  - reflexivity.
  - reflexivity.
  - split; [exact Hanswer|]. rewrite Hlog. reflexivity.
Defined.

(** C6, as stated, fails at [retry_count = 0]: no request is made and
    the answer is not a timeout. *)
Lemma check_url_no_attempt_no_timeout :
  check_url net_timeout net_ok read_ok
    (new_checker 5 20 0 default_user_agent) (lit "https://example.org/")
  = ([], Ok (None, lit "Unknown Error", true))
  /\ (check_url net_timeout net_ok read_ok
        (new_checker 5 20 0 default_user_agent) (lit "https://example.org/")).2
     <> Ok (None, lit "Timeout", true).
Proof. vm_compute. split; [reflexivity | discriminate]. Qed.

Lemma check_url_timeout_witness :
  1 <= retry_count (new_checker 5 20 3 default_user_agent)
  /\ (check_url net_timeout net_ok read_ok
        (new_checker 5 20 3 default_user_agent) (lit "https://example.org/")).2
     = Ok timeout_answer
  /\ (check_url net_timeout net_ok read_ok
        (new_checker 5 20 3 default_user_agent) (lit "https://example.org/")).1
     = [Head (lit "https://example.org/"); Sleep 1;
        Head (lit "https://example.org/"); Sleep 1;
        Head (lit "https://example.org/")].
Proof.
  assert (Hrc : 1 <= retry_count (new_checker 5 20 3 default_user_agent))
    by (simpl; lia).
  split; [exact Hrc|].
  destruct (check_url_timeout net_timeout net_ok read_ok
              (new_checker 5 20 3 default_user_agent)
              (lit "https://example.org/") Hrc)
    as (Hanswer & Hlog & _).
  - intros j _. exists read_timeout. split; reflexivity.
  - split; [exact Hanswer|]. rewrite Hlog. reflexivity.
Defined.

(** A metrics mapping with two pages of equal counts, [/b/] entered
    before [/a/]: the site where [/] links to both and both link back. *)
Definition tied_pages_analyzer : LinkGraphAnalyzer fraction :=
  {| excluded_paths := [];
     excluded_extensions := default_excluded_extensions;
     link_graph :=
       {[ lit "/" := [lit "/a/"; lit "/b/"];
          lit "/a/" := [lit "/"];
          lit "/b/" := [lit "/"] ]};
     all_pages := {[ lit "/"; lit "/a/"; lit "/b/" ]};
     metrics :=
       [ (lit "/",
          {| url := lit "/"; inbound := 2; outbound := 2; ratio := Float (1, 1);
             inbound_from := [lit "/a/"; lit "/b/"];
             outbound_to := [lit "/a/"; lit "/b/"] |});
         (lit "/b/",
          {| url := lit "/b/"; inbound := 1; outbound := 1; ratio := Float (1, 1);
             inbound_from := [lit "/"]; outbound_to := [lit "/"] |});
         (lit "/a/",
          {| url := lit "/a/"; inbound := 1; outbound := 1; ratio := Float (1, 1);
             inbound_from := [lit "/"]; outbound_to := [lit "/"] |}) ] |}.

Lemma Sorted_cons_cons {A : Type} (R : A -> A -> Prop) (x y : A) (l : list A) :
  Sorted R (x :: y :: l) -> R x y.
Proof. intros H. apply Sorted_inv in H as [_ H]. by apply HdRel_inv in H. Qed.

(** C7, as stated, fails: pages with equal counts come out in the order
    of the metrics mapping, here [/b/] before [/a/]. *)
Lemma finders_ties_not_by_page :
  map ul_url (find_underlinked tied_pages_analyzer 3)
  = [lit "/b/"; lit "/a/"; lit "/"]
  /\ map ol_url (find_overlinked tied_pages_analyzer 0)
     = [lit "/"; lit "/b/"; lit "/a/"]
  /\ map sk_url (find_link_sinks tied_pages_analyzer 1 2)
     = [lit "/"; lit "/b/"; lit "/a/"]
  /\ ~ Sorted underlinked_order_by_page
        (find_underlinked tied_pages_analyzer 3)
  /\ ~ Sorted overlinked_order_by_page
        (find_overlinked tied_pages_analyzer 0)
  /\ ~ Sorted sink_order_by_page
        (find_link_sinks tied_pages_analyzer 1 2).
Proof.
  repeat split; try reflexivity.
  - intros H. vm_compute in H. apply Sorted_cons_cons in H.
    destruct H as [H|[_ H]]; vm_compute in H; discriminate.
  - intros H. vm_compute in H. apply Sorted_inv in H as [H _].
    apply Sorted_cons_cons in H.
    destruct H as [H|[_ H]]; vm_compute in H; discriminate.
  - intros H. vm_compute in H. apply Sorted_inv in H as [H _].
    apply Sorted_cons_cons in H.
    destruct H as [H|[_ H]]; vm_compute in H; discriminate.
Qed.

(** C8, as stated, fails for empty lists: the built-in lists are used
    in their place. *)
Lemma filter_empty_lists_use_defaults :
  filter_false_positives ascii_lower [linkedin_404; forbidden_403]
    (Some []) (Some [])
  = ([], [linkedin_404; forbidden_403])
  /\ ~ reclassified ascii_lower [] [] linkedin_404
  /\ ~ reclassified ascii_lower [] [] forbidden_403.
Proof.
  split; [reflexivity|].
  split; intros [(d & H & _)|[(c & _ & H)|[H|H]]];
    solve [ by apply elem_of_nil in H | vm_compute in H; discriminate ].
Qed.

(** One list supplied and the other empty: the supplied domain is
    used, and the built-in codes are. *)
Example filter_one_list_supplied :
  filter_false_positives ascii_lower [linkedin_404; forbidden_403]
    (Some [lit "example.com"]) (Some [])
  = ([linkedin_404], [forbidden_403])
  /\ filter_false_positives ascii_lower [linkedin_404; forbidden_403]
       None (Some [404])
     = ([forbidden_403], [linkedin_404])
  /\ filter_false_positives ascii_lower [linkedin_404; forbidden_403]
       (Some [lit "example.com"]) (Some [404])
     = ([], [linkedin_404; forbidden_403])
  /\ filter_false_positives ascii_lower [linkedin_404; forbidden_403]
       (Some [lit "example.org"]) (Some [410])
     = ([linkedin_404; forbidden_403], []).
Proof. repeat split; reflexivity. Qed.

(** * The rest of the two scripts

    The methods and the parts of [main] that the statements above do
    not reach, and what the code shows of them. *)

Arguments url {F} _.
Arguments inbound {F} _.
Arguments outbound {F} _.
Arguments ratio {F} _.
Arguments inbound_from {F} _.
Arguments outbound_to {F} _.
Arguments excluded_paths {F} _.
Arguments excluded_extensions {F} _.
Arguments link_graph {F} _.
Arguments all_pages {F} _.
Arguments is_excluded str_lower {F} self url.
Arguments extract_internal_links str_lower {F} self hrefs.
Arguments build_graph_step str_lower {F} self file.
Arguments build_graph str_lower {F} self html_files.
Arguments page_metrics {F} fzero int_truediv round2 self inbound_from page.
Arguments calculate_metrics {F} fzero int_truediv round2 self.
Arguments graph_closed {F} self.

(** [l[:limit]]: a negative [limit] counts from the end. *)
Definition slice_to {A : Type} (limit : Z) (l : list A) : list A :=
  if 0 <=? limit then take (Z.to_nat limit) l
  else take (length l - Z.to_nat (- limit)) l.

(** One dictionary of the list [get_top_pages_by_inbound] returns. *)
Record top_entry := {
  tp_url : str;
  tp_inbound : Z;
  tp_outbound : Z
}.

Definition top_entry_of {F : Type} (p : PageMetrics F) : top_entry :=
  {| tp_url := url p; tp_inbound := inbound p; tp_outbound := outbound p |}.

Definition get_top_pages_by_inbound {F : Type} (self : LinkGraphAnalyzer F)
  (limit : Z) : list top_entry :=
  let sorted_pages := sorted_key_reverse inbound (map snd (metrics self)) in
  map top_entry_of (slice_to limit sorted_pages).

(** The dictionary [analyze] returns; [analyzed_at] is [timestamp()]. *)
Record analysis (F : Type) := {
  analyzed_at : str;
  total_pages : Z;
  total_links : Z;
  thresholds : Z * Z * Z * Z;
  summary_orphan_pages : Z;
  summary_underlinked_pages : Z;
  summary_overlinked_pages : Z;
  summary_link_sinks : Z;
  orphan_pages : list str;
  underlinked_pages : list underlinked_entry;
  overlinked_pages : list overlinked_entry;
  link_sinks : list sink_entry;
  top_pages_by_inbound : list top_entry;
  analysis_link_graph : gmap str (list str);
  page_metrics_of : list (str * PageMetrics F)
}.
Arguments analyzed_at {F} _.
Arguments total_pages {F} _.
Arguments total_links {F} _.
Arguments thresholds {F} _.
Arguments summary_orphan_pages {F} _.
Arguments summary_underlinked_pages {F} _.
Arguments summary_overlinked_pages {F} _.
Arguments summary_link_sinks {F} _.
Arguments orphan_pages {F} _.
Arguments underlinked_pages {F} _.
Arguments overlinked_pages {F} _.
Arguments link_sinks {F} _.
Arguments top_pages_by_inbound {F} _.
Arguments analysis_link_graph {F} _.
Arguments page_metrics_of {F} _.

(** [sum(len(v) for v in self.link_graph.values())] *)
Definition count_links (graph : gmap str (list str)) : Z :=
  sum_Z (map (fun item => Z.of_nat (length item.2)) (map_to_list graph)).

(** [analyze]: the analyzer afterwards and the dictionary returned. The
    files are what [build_graph] finds under [dist_path]; [now] is what
    [timestamp()] returns. *)
Definition analyze (str_lower : str -> str) {F : Type} (fzero : F)
  (int_truediv : Z -> Z -> F) (round2 : F -> F) (now : str)
  (self : LinkGraphAnalyzer F) (html_files : list html_file)
  (underlinked_threshold overlinked_threshold sink_min_inbound
     sink_max_outbound : Z)
  : LinkGraphAnalyzer F * analysis F :=
  let self := build_graph str_lower self html_files in
  let self := calculate_metrics fzero int_truediv round2 self in
  let orphans := find_orphans self in
  let underlinked := find_underlinked self underlinked_threshold in
  let overlinked := find_overlinked self overlinked_threshold in
  let link_sinks := find_link_sinks self sink_min_inbound sink_max_outbound in
  let top_pages := get_top_pages_by_inbound self 20 in
  (self,
   {| analyzed_at := now;
      total_pages := Z.of_nat (size (all_pages self));
      total_links := count_links (link_graph self);
      thresholds := (underlinked_threshold, overlinked_threshold,
                     sink_min_inbound, sink_max_outbound);
      summary_orphan_pages := Z.of_nat (length orphans);
      summary_underlinked_pages := Z.of_nat (length underlinked);
      summary_overlinked_pages := Z.of_nat (length overlinked);
      summary_link_sinks := Z.of_nat (length link_sinks);
      orphan_pages := orphans;
      underlinked_pages := underlinked;
      overlinked_pages := overlinked;
      link_sinks := link_sinks;
      top_pages_by_inbound := top_pages;
      analysis_link_graph := link_graph self;
      page_metrics_of := metrics self |}).

(** The path of a file with its separators as [/], as
    [file_path_to_url] writes it before it looks at the suffix. *)
Definition posix_path (relative : str) : str :=
  map (fun c => if (c =? Chr.backslash)%N then Chr.slash else c) relative.

(** [main] of http_checker.py: the mapping it hands to [check_urls],
    from the [outbound_links] of the input file. *)
Definition prepare_urls (outbound_links : gmap str (list str))
  : gmap str url_info :=
  (fun pages => {| info_count := Some (Z.of_nat (length pages));
                   info_pages := Some pages |}) <$> outbound_links.

(** The dictionary [main] writes: the counts of its [metadata] and the
    three lists. *)
Record output_data := {
  checked_at : str;
  total_checked : Z;
  working : Z;
  broken : Z;
  real_broken : Z;
  false_positives : Z;
  broken_links : list ProbeResult;
  false_positive_links : list ProbeResult;
  working_links : list ProbeResult
}.

(** [main] from the results of [check_urls] on: [filter] is the
    [--filter] flag, the two lists are what the [false_positives]
    section of the configuration holds, if anything. *)
Definition build_output (str_lower : str -> str) (now : str)
  (results : list ProbeResult) (filter : bool)
  (bot_blocker_domains : option (list str))
  (ignore_status_codes : option (list Z)) : output_data :=
  let broken := List.filter pr_is_broken results in
  let working := List.filter (fun r => negb (pr_is_broken r)) results in
  let split :=
    if filter
    then filter_false_positives str_lower broken bot_blocker_domains
           ignore_status_codes
    else (broken, []) in
  {| checked_at := now;
     total_checked := Z.of_nat (length results);
     working := Z.of_nat (length working);
     broken := Z.of_nat (length broken);
     real_broken := Z.of_nat (length split.1);
     false_positives := Z.of_nat (length split.2);
     broken_links := sorted_key_reverse pr_occurrences split.1;
     false_positive_links := split.2;
     working_links := working |}.

(** ** More on the URL normaliser *)

Lemma startswith_self_app (p t : str) : startswith (p ++ t) p = true.
Proof.
  induction p as [|a p IH]; simpl; [done|]. by rewrite N.eqb_refl.
Qed.

Lemma endswith_app (x p : str) : endswith (x ++ p) p = true.
Proof. unfold endswith. rewrite rev_app_distr. apply startswith_self_app. Qed.

Lemma startswith_app_same (s x p : str) :
  startswith (s ++ x) (s ++ p) = startswith x p.
Proof.
  induction s as [|a s IH]; simpl; [done|]. by rewrite N.eqb_refl.
Qed.

Lemma endswith_app_same (x p s : str) :
  endswith (x ++ s) (p ++ s) = endswith x p.
Proof. unfold endswith. rewrite !rev_app_distr. apply startswith_app_same. Qed.

Lemma drop_last_app (x p : str) : drop_last (length p) (x ++ p) = x.
Proof.
  unfold drop_last. rewrite length_app.
  replace (length x + length p - length p)%nat with (length x) by lia.
  by rewrite take_app_length.
Qed.

Lemma normalize_url_keeps_clean (c : N) (u : str) :
  c <> Chr.slash ->
  contains_char c (unquote (strip_at Chr.question (strip_at Chr.hash u))) = false ->
  contains_char c (normalize_url u) = false.
Proof.
  intros Hc H. unfold normalize_url, ensure_trailing_slash, ensure_leading_slash.
  assert (Hs : (c =? Chr.slash)%N = false) by by apply N.eqb_neq.
  repeat match goal with |- context [if ?b then _ else _] => destruct b end;
    rewrite ?contains_char_app; simpl; rewrite ?Hs, ?H; done.
Qed.

(** X1: every normalised URL starts with [/], and it ends with [/]
    unless its last segment holds a dot. *)
Theorem normalize_url_canonical_form (u : str) :
  startswith (normalize_url u) [Chr.slash] = true
  /\ (endswith (normalize_url u) [Chr.slash] = true
      \/ contains_char Chr.dot (last_of (split Chr.slash (normalize_url u)))
         = true).
Proof.
  split; [apply normalize_url_starts|].
  pose proof (ensure_trailing_slash_idem
                (ensure_leading_slash
                   (unquote (strip_at Chr.question (strip_at Chr.hash u)))))
    as Hidem.
  fold (normalize_url u) in Hidem.
  unfold ensure_trailing_slash in Hidem at 1.
  destruct (endswith (normalize_url u) [Chr.slash]); [by left|].
  destruct (contains_char Chr.dot _); [by right|].
  simpl in Hidem. exfalso.
  apply (f_equal length) in Hidem. rewrite length_app in Hidem. simpl in Hidem.
  lia.
Qed.

(** X2: a URL without [%] normalises to a string with no [#], no [?]
    and no [%], which a second pass leaves alone. *)
Theorem normalize_url_plain (u : str) :
  contains_char Chr.percent u = false ->
  contains_char Chr.hash (normalize_url u) = false
  /\ contains_char Chr.question (normalize_url u) = false
  /\ contains_char Chr.percent (normalize_url u) = false
  /\ normalize_url (normalize_url u) = normalize_url u.
Proof.
  intros Hp.
  assert (Hp' : contains_char Chr.percent
                  (strip_at Chr.question (strip_at Chr.hash u)) = false)
    by by do 2 apply strip_at_keeps_clean.
  assert (Hh : contains_char Chr.hash (normalize_url u) = false).
  { apply normalize_url_keeps_clean; [done|].
    rewrite (unquote_no_percent _ Hp').
    apply strip_at_keeps_clean, strip_at_clean. }
  assert (Hq : contains_char Chr.question (normalize_url u) = false).
  { apply normalize_url_keeps_clean; [done|].
    rewrite (unquote_no_percent _ Hp'). apply strip_at_clean. }
  assert (Hc : contains_char Chr.percent (normalize_url u) = false).
  { apply normalize_url_keeps_clean; [done|].
    by rewrite (unquote_no_percent _ Hp'). }
  repeat split; try done.
  destruct (normalize_url_shape u) as [Hs Ht].
  apply normalize_url_fixed; try done. by apply unquote_no_percent.
Qed.

Lemma normalize_url_plain_witness :
  contains_char Chr.percent (lit "/blog/post?utm=1#top") = false
  /\ normalize_url (normalize_url (lit "/blog/post?utm=1#top"))
     = normalize_url (lit "/blog/post?utm=1#top").
Proof.
  split; [reflexivity|].
  apply (normalize_url_plain (lit "/blog/post?utm=1#top")). reflexivity.
Defined.

Lemma file_path_to_url_posix (relative : str) :
  file_path_to_url relative
  = normalize_url
      (let url := Chr.slash :: posix_path relative in
       if endswith url (lit "/index.html") then drop_last 10 url
       else if endswith url (lit ".html") then drop_last 5 url ++ [Chr.slash]
       else url).
Proof. reflexivity. Qed.

Lemma posix_path_app (a b : str) :
  posix_path (a ++ b) = posix_path a ++ posix_path b.
Proof. apply map_app. Qed.

(** X3: [d/index.html] and [d.html] are the same page: both become the
    normalised [/d/], unless [d] itself ends in [/index] (or is
    [index]), where [d.html] is read as an index file. *)
Theorem file_path_to_url_index_and_html (d : str) :
  endswith (Chr.slash :: posix_path d) (lit "/index") = false ->
  file_path_to_url (d ++ lit "/index.html")
  = normalize_url (Chr.slash :: posix_path d ++ [Chr.slash])
  /\ file_path_to_url (d ++ lit ".html")
     = normalize_url (Chr.slash :: posix_path d ++ [Chr.slash]).
Proof.
  intros Hd. set (P := Chr.slash :: posix_path d) in *.
  assert (Hindex : Chr.slash :: posix_path (d ++ lit "/index.html")
                   = (P ++ [Chr.slash]) ++ lit "index.html").
  { rewrite posix_path_app, <- app_assoc. reflexivity. }
  assert (Hhtml : Chr.slash :: posix_path (d ++ lit ".html")
                  = P ++ lit ".html").
  { rewrite posix_path_app. reflexivity. }
  rewrite !file_path_to_url_posix. cbv zeta. rewrite Hindex, Hhtml. split.
  - replace (endswith ((P ++ [Chr.slash]) ++ lit "index.html")
               (lit "/index.html")) with true.
    + f_equal. apply (drop_last_app (P ++ [Chr.slash]) (lit "index.html")).
    + symmetry. rewrite <- app_assoc.
      apply (endswith_app P (lit "/index.html")).
  - replace (endswith (P ++ lit ".html") (lit "/index.html")) with false.
    + replace (endswith (P ++ lit ".html") (lit ".html")) with true
        by (symmetry; apply (endswith_app P)).
      f_equal.
      change (drop_last (length (lit ".html")) (P ++ lit ".html") ++ [Chr.slash]
              = P ++ [Chr.slash]).
      by rewrite drop_last_app.
    + pose proof (endswith_app_same P (lit "/index") (lit ".html")) as H.
      rewrite Hd in H. symmetry. exact H.
Qed.

Lemma file_path_to_url_index_and_html_witness :
  endswith (Chr.slash :: posix_path (lit "docs\guide")) (lit "/index") = false
  /\ file_path_to_url (lit "docs\guide/index.html") = lit "/docs/guide/"
  /\ file_path_to_url (lit "docs\guide.html") = lit "/docs/guide/".
Proof.
  split; [reflexivity|].
  destruct (file_path_to_url_index_and_html (lit "docs\guide")) as [H1 H2];
    [reflexivity|].
  split; [exact H1 | exact H2].
Defined.

(** ** More on the link graph builder *)

Lemma build_graph_step_exclusions (str_lower : str -> str) {F : Type}
  (self : LinkGraphAnalyzer F) (file : html_file) :
  excluded_paths (build_graph_step str_lower self file) = excluded_paths self
  /\ excluded_extensions (build_graph_step str_lower self file)
     = excluded_extensions self.
Proof.
  unfold build_graph_step.
  destruct (is_excluded str_lower self _); [done|]. by destruct file.2.
Qed.

Lemma is_excluded_same_lists (str_lower : str -> str) {F : Type}
  (self self' : LinkGraphAnalyzer F) (u : str) :
  excluded_paths self' = excluded_paths self ->
  excluded_extensions self' = excluded_extensions self ->
  is_excluded str_lower self' u = is_excluded str_lower self u.
Proof. unfold is_excluded. by intros -> ->. Qed.

(** What [build_graph] keeps of every page and of every list of links. *)
Definition pages_admitted (str_lower : str -> str) {F : Type}
  (self0 self : LinkGraphAnalyzer F) : Prop :=
  excluded_paths self = excluded_paths self0
  /\ excluded_extensions self = excluded_extensions self0
  /\ (forall page, page ∈ all_pages self ->
        is_excluded str_lower self0 page = false
        /\ exists raw, page = normalize_url raw)
  /\ (forall s ts, link_graph self !! s = Some ts -> NoDup ts).

Lemma extract_internal_links_admitted (str_lower : str -> str) {F : Type}
  (self : LinkGraphAnalyzer F) (hrefs : list str) (link : str) :
  link ∈ extract_internal_links str_lower self hrefs ->
  is_excluded str_lower self link = false
  /\ exists href, href ∈ hrefs /\ startswith href [Chr.slash] = true
                  /\ link = normalize_url href.
Proof.
  unfold extract_internal_links. rewrite list_elem_of_In, in_flat_map.
  intros (href & Hin & Hl). apply list_elem_of_In in Hin.
  destruct (startswith href [Chr.slash]) eqn:Hs; [|done].
  destruct (is_excluded str_lower self (normalize_url href)) eqn:He; [done|].
  destruct Hl as [<-|[]]. split; [done|]. by exists href.
Qed.

Lemma build_graph_step_admitted (str_lower : str -> str) {F : Type}
  (self0 self : LinkGraphAnalyzer F) (file : html_file) :
  pages_admitted str_lower self0 self ->
  pages_admitted str_lower self0 (build_graph_step str_lower self file).
Proof.
  intros (Hp & He & Hpages & Hnd).
  destruct (build_graph_step_exclusions str_lower self file) as [Hp' He'].
  split; [congruence|]. split; [congruence|].
  unfold build_graph_step.
  destruct (is_excluded str_lower self (file_path_to_url file.1)) eqn:Hex;
    [done|].
  assert (Hsrc : is_excluded str_lower self0 (file_path_to_url file.1) = false
                 /\ exists raw, file_path_to_url file.1 = normalize_url raw).
  { split; [|unfold file_path_to_url; by eexists].
    by rewrite <- (is_excluded_same_lists str_lower self0 self). }
  destruct file.2 as [hrefs|]; cbn [all_pages link_graph]; split.
  - intros page. rewrite !elem_of_union, elem_of_list_to_set, elem_of_elements,
      elem_of_list_to_set, elem_of_singleton.
    intros [Hl|[->|Hin]]; [|done|by apply Hpages].
    apply extract_internal_links_admitted in Hl as [Hex' (href & _ & _ & ->)].
    split; [|by eexists].
    by rewrite <- (is_excluded_same_lists str_lower self0 self).
  - intros s ts. rewrite lookup_insert_Some.
    intros [[_ <-]|[_ Hs]]; [apply NoDup_elements | by apply (Hnd s)].
  - intros page. rewrite elem_of_union, elem_of_singleton.
    intros [->|Hin]; [done | by apply Hpages].
  - done.
Qed.

Lemma build_graph_admitted (str_lower : str -> str) {F : Type}
  (self0 self : LinkGraphAnalyzer F) (files : list html_file) :
  pages_admitted str_lower self0 self ->
  pages_admitted str_lower self0 (build_graph str_lower self files).
Proof.
  unfold build_graph. revert self.
  induction files as [|f files IH]; intros self H; simpl; [done|].
  by apply IH, build_graph_step_admitted.
Qed.

Lemma new_analyzer_admitted (str_lower : str -> str) (F : Type)
  (ep ee : option (list str)) :
  pages_admitted str_lower (new_analyzer F ep ee) (new_analyzer F ep ee).
Proof.
  repeat split; done.
Qed.

(** X4: no excluded page enters the page set, as a source or as a
    target, and every page of the set is a normalised URL: it starts
    with [/]. *)
Theorem build_graph_pages_admitted (str_lower : str -> str) (F : Type)
  (excluded_paths excluded_extensions : option (list str))
  (html_files : list html_file) (page : str) :
  let fresh := new_analyzer F excluded_paths excluded_extensions in
  page ∈ all_pages (build_graph str_lower fresh html_files) ->
  is_excluded str_lower fresh page = false
  /\ startswith page [Chr.slash] = true.
Proof.
  intros fresh Hin.
  destruct (build_graph_admitted str_lower fresh fresh html_files
              (new_analyzer_admitted str_lower F _ _))
    as (_ & _ & Hpages & _).
  destruct (Hpages page Hin) as [Hex (raw & ->)].
  split; [done | apply normalize_url_starts].
Qed.

(** X5: every source and every target of the link graph is in the page
    set, and no list of targets holds a page twice. *)
Theorem build_graph_closed_and_distinct (str_lower : str -> str) (F : Type)
  (excluded_paths excluded_extensions : option (list str))
  (html_files : list html_file) (source : str) (targets : list str) :
  let self := build_graph str_lower
                (new_analyzer F excluded_paths excluded_extensions)
                html_files in
  link_graph self !! source = Some targets ->
  source ∈ all_pages self
  /\ (forall target, target ∈ targets -> target ∈ all_pages self)
  /\ NoDup targets.
Proof.
  intros self Hs.
  assert (Hclosed : graph_closed self).
  { apply build_graph_closed. intros s ts H. cbn in H.
    by rewrite lookup_empty in H. }
  destruct (Hclosed source targets Hs) as [H1 H2].
  destruct (build_graph_admitted str_lower _ _ html_files
              (new_analyzer_admitted str_lower F excluded_paths
                 excluded_extensions))
    as (_ & _ & _ & Hnd).
  split; [done|]. split; [done|]. by apply (Hnd source).
Qed.

(** ** More on the metrics calculator *)

Lemma inbound_targets_NoDup (s : str) (ts : list str)
  (acc : gmap str (list str)) (t : str) :
  NoDup ts ->
  NoDup (default [] (acc !! t)) ->
  (s ∉ default [] (acc !! t)) \/ (t ∉ ts) ->
  NoDup (default [] (foldl (add_inbound s) acc ts !! t)).
Proof.
  intros Hts. revert acc.
  induction Hts as [|t0 ts Hnin Hts IH]; intros acc Hacc Hor; simpl; [done|].
  apply IH.
  - rewrite lookup_add_inbound. case_bool_decide as Heq; [|done]. subst t0.
    apply NoDup_app. split; [done|]. split; [|apply NoDup_singleton].
    intros x Hx Hs. apply list_elem_of_singleton in Hs as ->.
    destruct Hor as [Hor|Hor]; [done|]. apply Hor. by left.
  - rewrite lookup_add_inbound. case_bool_decide as Heq.
    + subst t0. by right.
    + destruct Hor as [Hor|Hor]; [by left|]. right.
      intros Hin. apply Hor. by right.
Qed.

Lemma inbound_items_NoDup (items : list (str * list str))
  (acc : gmap str (list str)) (t : str) :
  NoDup items.*1 ->
  (forall s ts, (s, ts) ∈ items -> NoDup ts) ->
  NoDup (default [] (acc !! t)) ->
  (forall s, s ∈ default [] (acc !! t) -> s ∉ items.*1) ->
  NoDup (default []
           (foldl (fun inb item => foldl (add_inbound item.1) inb item.2)
              acc items !! t)).
Proof.
  revert acc. induction items as [|[s0 ts0] items IH];
    intros acc Hkeys Hts Hacc Hfresh; simpl; [done|].
  apply NoDup_cons in Hkeys as [Hs0 Hkeys]. apply IH.
  - done.
  - intros s ts H. apply (Hts s). by right.
  - apply inbound_targets_NoDup; [apply (Hts s0); by left | done |].
    left. intros H. apply (Hfresh s0 H). by left.
  - intros s. rewrite elem_of_inbound_targets. intros [H|[-> _]]; [|done].
    intros Hin. apply (Hfresh s H). by right.
Qed.

(** X6: when no outbound list holds a page twice, as in every graph
    the builder produces, no inbound list does either: the inbound
    count of a page is the number of distinct pages that link to it. *)
Theorem build_inbound_from_distinct (graph : gmap str (list str))
  (target : str) :
  (forall s ts, graph !! s = Some ts -> NoDup ts) ->
  NoDup (default [] (build_inbound_from graph !! target)).
Proof.
  intros Hnd. unfold build_inbound_from. apply inbound_items_NoDup.
  - apply NoDup_fst_map_to_list.
  - intros s ts H. apply (Hnd s). by apply elem_of_map_to_list.
  - rewrite lookup_empty. apply NoDup_nil_2.
  - intros s. rewrite lookup_empty. intros H. by apply elem_of_nil in H.
Qed.

Lemma build_inbound_from_distinct_witness :
  (forall s ts,
      link_graph three_pages_analyzer !! s = Some ts -> NoDup ts)
  /\ NoDup (default []
              (build_inbound_from (link_graph three_pages_analyzer)
               !! lit "/b/")).
Proof.
  assert (H : forall s ts,
             link_graph three_pages_analyzer !! s = Some ts -> NoDup ts).
  { intros s ts Hs.
    destruct (build_graph_admitted ascii_lower _ _ three_pages
                (new_analyzer_admitted ascii_lower fraction None None))
      as (_ & _ & _ & Hnd).
    exact (Hnd s ts Hs). }
  split; [exact H|].
  apply (build_inbound_from_distinct (link_graph three_pages_analyzer)
           (lit "/b/") H).
Defined.

Lemma calculate_metrics_fresh {F : Type} (fzero : F)
  (int_truediv : Z -> Z -> F) (round2 : F -> F) (self : LinkGraphAnalyzer F) :
  metrics self = [] ->
  metrics (calculate_metrics fzero int_truediv round2 self)
  = map (fun page =>
           (page,
            page_metrics fzero int_truediv round2 self
              (build_inbound_from (link_graph self)) page))
        (elements (all_pages self)).
Proof.
  intros Hm. unfold calculate_metrics. cbn [metrics].
  rewrite Hm, foldl_dict_set_fresh; [done | apply NoDup_elements | done].
Qed.

(** X7: from the empty mapping [__init__] leaves, [calculate_metrics]
    gives one entry per page of the page set and no other, each with
    the page as its [url]. *)
Theorem calculate_metrics_keys {F : Type} (fzero : F)
  (int_truediv : Z -> Z -> F) (round2 : F -> F) (self : LinkGraphAnalyzer F) :
  metrics self = [] ->
  let computed := metrics (calculate_metrics fzero int_truediv round2 self) in
  NoDup computed.*1
  /\ (forall page, page ∈ computed.*1 <-> page ∈ all_pages self)
  /\ length computed = size (all_pages self)
  /\ (forall page m, (page, m) ∈ computed -> url m = page).
Proof.
  intros Hm computed. unfold computed.
  rewrite (calculate_metrics_fresh fzero int_truediv round2 self Hm).
  rewrite <- list_fmap_compose. unfold compose. cbn [fst].
  rewrite list_fmap_id. split; [apply NoDup_elements|].
  split; [intros page; apply elem_of_elements|].
  split; [by rewrite length_map|].
  intros page m. rewrite list_elem_of_fmap. by intros (p & [= -> ->] & _).
Qed.

Lemma calculate_metrics_keys_witness :
  metrics (build_graph ascii_lower (new_analyzer fraction None None)
             three_pages) = []
  /\ length (metrics three_pages_analyzer) = 3%nat.
Proof.
  assert (H : metrics (build_graph ascii_lower (new_analyzer fraction None None)
                         three_pages) = []) by reflexivity.
  split; [exact H|].
  destruct (calculate_metrics_keys exact_zero exact_truediv exact_round2
              (build_graph ascii_lower (new_analyzer fraction None None)
                 three_pages) H) as (_ & _ & Hlen & _).
  exact Hlen.
Defined.

Lemma take_sorted_str (n : nat) (l : list str) :
  (length (take n (sorted_str l)) <= n)%nat
  /\ StronglySorted str_le (take n (sorted_str l))
  /\ (forall x, x ∈ take n (sorted_str l) -> x ∈ l)
  /\ (length l <= n -> take n (sorted_str l) ≡ₚ l)%nat.
Proof.
  split; [rewrite length_take; lia|]. split; [|split].
  - pose proof (sorted_str_sorted l) as H.
    rewrite <- (take_drop n (sorted_str l)) in H.
    by apply StronglySorted_app_1_l in H.
  - intros x Hx.
    assert (Hin : x ∈ sorted_str l).
    { rewrite <- (take_drop n (sorted_str l)). apply elem_of_app. by left. }
    unfold sorted_str in Hin. by rewrite sorted_with_perm in Hin.
  - intros Hlen. rewrite take_ge.
    + apply sorted_with_perm.
    + unfold sorted_str. by rewrite sorted_with_perm.
Qed.

(** X8: the [inbound_from] and [outbound_to] fields of an entry hold
    at most ten pages, in lexicographic order, all of them sources
    (targets) of the page; with at most ten sources (targets) they hold
    them all. *)
Theorem calculate_metrics_samples {F : Type} (fzero : F)
  (int_truediv : Z -> Z -> F) (round2 : F -> F) (self : LinkGraphAnalyzer F)
  (page : str) :
  page ∈ all_pages self ->
  exists m,
    dict_get page (metrics (calculate_metrics fzero int_truediv round2 self))
    = Some m
    /\ ((length (outbound_to m) <= 10)%nat
        /\ StronglySorted str_le (outbound_to m)
        /\ (forall t, t ∈ outbound_to m ->
              t ∈ default [] (link_graph self !! page))
        /\ (outbound m <= 10 ->
            outbound_to m ≡ₚ default [] (link_graph self !! page)))
    /\ ((length (inbound_from m) <= 10)%nat
        /\ StronglySorted str_le (inbound_from m)
        /\ (forall s, s ∈ inbound_from m ->
              page ∈ default [] (link_graph self !! s))
        /\ (inbound m <= 10 ->
            inbound_from m
            ≡ₚ default [] (build_inbound_from (link_graph self) !! page))).
Proof.
  intros Hin. eexists. split.
  { apply (calculate_metrics_get F fzero int_truediv round2 self page Hin). }
  unfold page_metrics. cbn [outbound_to inbound_from inbound outbound].
  split.
  - destruct (take_sorted_str 10 (default [] (link_graph self !! page)))
      as (H1 & H2 & H3 & H4).
    repeat split; try done. intros Hle. apply H4. lia.
  - destruct (take_sorted_str 10
                (default [] (build_inbound_from (link_graph self) !! page)))
      as (H1 & H2 & H3 & H4).
    repeat split; try done.
    + intros s Hs. apply build_inbound_from_spec. by apply H3.
    + intros Hle. apply H4. lia.
Qed.

Lemma calculate_metrics_samples_witness :
  lit "/a/" ∈ all_pages (build_graph ascii_lower
                           (new_analyzer fraction None None) three_pages)
  /\ exists m,
      dict_get (lit "/a/") (metrics three_pages_analyzer) = Some m
      /\ outbound_to m = [lit "/b/"]
      /\ inbound_from m = [lit "/"].
Proof.
  assert (Hin : lit "/a/" ∈ all_pages (build_graph ascii_lower
                   (new_analyzer fraction None None) three_pages)).
  { apply (bool_decide_unpack _). vm_compute. exact I. }
  split; [exact Hin|].
  destruct (calculate_metrics_samples exact_zero exact_truediv exact_round2
              (build_graph ascii_lower (new_analyzer fraction None None)
                 three_pages) (lit "/a/") Hin) as (m & Hget & _).
  exists m. split; [exact Hget|].
  vm_compute in Hget. injection Hget as <-. split; reflexivity.
Defined.

Lemma dict_set_same {V : Type} (k : str) (v : V) (d : list (str * V)) :
  dict_get k d = Some v -> dict_set k v d = d.
Proof.
  induction d as [|[k' v'] d IH]; simpl; [done|].
  case_bool_decide as Heq.
  - intros [= ->]. by subst.
  - intros H. by rewrite IH.
Qed.

Lemma foldl_dict_set_same {V : Type} (f : str -> V) (pages : list str)
  (m : list (str * V)) :
  (forall p, p ∈ pages -> dict_get p m = Some (f p)) ->
  foldl (fun m p => dict_set p (f p) m) m pages = m.
Proof.
  induction pages as [|p pages IH]; intros H; simpl; [done|].
  rewrite dict_set_same by (apply H; by left).
  apply IH. intros q Hq. apply H. by right.
Qed.

(** X9: computing the metrics again changes nothing: every entry is
    rewritten in place with the value it has. *)
Theorem calculate_metrics_idempotent {F : Type} (fzero : F)
  (int_truediv : Z -> Z -> F) (round2 : F -> F) (self : LinkGraphAnalyzer F) :
  calculate_metrics fzero int_truediv round2
    (calculate_metrics fzero int_truediv round2 self)
  = calculate_metrics fzero int_truediv round2 self.
Proof.
  unfold calculate_metrics at 1. cbn [link_graph all_pages excluded_paths
    excluded_extensions].
  set (once := calculate_metrics fzero int_truediv round2 self).
  rewrite (foldl_dict_set_same
             (fun page => page_metrics fzero int_truediv round2 once
                            (build_inbound_from (link_graph self)) page)).
  - done.
  - intros p Hp. apply elem_of_elements in Hp.
    unfold once.
    by rewrite (calculate_metrics_get F fzero int_truediv round2 self p Hp).
Qed.

(** ** More on the classifier and on [analyze] *)

Lemma NoDup_fst_functional {A : Type} (l : list (str * A)) (k : str) (a b : A) :
  NoDup l.*1 -> (k, a) ∈ l -> (k, b) ∈ l -> a = b.
Proof.
  induction l as [|[k' c] l IH]; intros Hnd Ha Hb.
  - by apply elem_of_nil in Ha.
  - cbn in Hnd. apply NoDup_cons in Hnd as [Hk Hnd].
    apply elem_of_cons in Ha as [Ha|Ha];
      apply elem_of_cons in Hb as [Hb|Hb].
    + congruence.
    + injection Ha as -> ->. exfalso.
      apply Hk, list_elem_of_fmap. by exists (k', b).
    + injection Hb as -> ->. exfalso.
      apply Hk, list_elem_of_fmap. by exists (k', a).
    + by apply IH.
Qed.

(** X10: no page is both an orphan and under-linked, whatever the
    threshold. *)
Theorem orphans_not_underlinked {F : Type} (self : LinkGraphAnalyzer F)
  (threshold : Z) (page : str) :
  NoDup (metrics self).*1 ->
  page ∈ find_orphans self ->
  page ∉ map ul_url (find_underlinked self threshold).
Proof.
  intros Hnd Ho Hu.
  rewrite find_orphans_select in Ho. unfold sorted_str in Ho.
  rewrite sorted_with_perm in Ho.
  apply elem_of_flat_map_select in Ho as ([p m] & Hin & Hc & Hpage).
  cbn in Hpage. subst page.
  apply andb_true_iff in Hc as [H0 _]. apply Z.eqb_eq in H0.
  apply list_elem_of_fmap in Hu as (e & Hp & He).
  unfold find_underlinked, sorted_key in He. rewrite sorted_with_perm in He.
  unfold underlinked_candidates in He.
  apply (elem_of_flat_map_select
           (fun item => (0 <? inbound item.2) && (inbound item.2 <? threshold))
           (fun item => {| ul_url := item.1; ul_inbound := inbound item.2;
                           ul_inbound_from := inbound_from item.2 |}))
    in He as ([p' m'] & Hin' & Hc' & He).
  subst e. cbn in *. subst p'.
  apply andb_true_iff in Hc' as [Hpos _]. apply Z.ltb_lt in Hpos.
  assert (m = m') by by apply (NoDup_fst_functional (metrics self) p).
  subst m'. lia.
Qed.

Lemma orphans_not_underlinked_witness :
  NoDup (metrics tied_pages_analyzer).*1
  /\ find_orphans tied_pages_analyzer = []
  /\ lit "/a/" ∈ map ul_url (find_underlinked tied_pages_analyzer 3)
  /\ lit "/a/" ∉ find_orphans tied_pages_analyzer.
Proof.
  assert (Hnd : NoDup (metrics tied_pages_analyzer).*1).
  { apply (bool_decide_unpack _). vm_compute. exact I. }
  assert (Hu : lit "/a/" ∈ map ul_url (find_underlinked tied_pages_analyzer 3)).
  { apply (bool_decide_unpack _). vm_compute. exact I. }
  split; [exact Hnd|]. split; [reflexivity|]. split; [exact Hu|].
  intros Ho.
  exact (orphans_not_underlinked tied_pages_analyzer 3 (lit "/a/") Hnd Ho Hu).
Defined.

(** X12: for a limit that is not negative, [get_top_pages_by_inbound]
    lists [limit] pages (all of them when there are fewer) by falling
    inbound count, and every page left out has at most the inbound
    count of every page listed. *)
Theorem top_pages_by_inbound_are_top {F : Type} (self : LinkGraphAnalyzer F)
  (limit : Z) :
  0 <= limit ->
  let top := get_top_pages_by_inbound self limit in
  length top = Nat.min (Z.to_nat limit) (length (metrics self))
  /\ StronglySorted (fun a b => tp_inbound b <= tp_inbound a) top
  /\ exists rest,
      map top_entry_of (map snd (metrics self)) ≡ₚ top ++ rest
      /\ forall a b, a ∈ top -> b ∈ rest -> tp_inbound b <= tp_inbound a.
Proof.
  intros Hl top. unfold top, get_top_pages_by_inbound, slice_to.
  apply Z.leb_le in Hl. rewrite Hl. clear top.
  set (values := map snd (metrics self)).
  set (sorted := sorted_key_reverse inbound values).
  assert (Hperm : sorted ≡ₚ values) by apply sorted_key_reverse_perm.
  assert (Hs : StronglySorted
                 (fun a b : PageMetrics F => inbound b <= inbound a) sorted)
    by apply sorted_key_reverse_descending.
  rewrite <- (take_drop (Z.to_nat limit) sorted) in Hs.
  apply StronglySorted_app in Hs as (Hcross & Htake & _).
  split; [|split].
  - rewrite length_map, length_take, Hperm. unfold values.
    by rewrite length_map.
  - by apply (StronglySorted_fmap top_entry_of
                (fun a b : PageMetrics F => inbound b <= inbound a)).
  - exists (map top_entry_of (drop (Z.to_nat limit) sorted)). split.
    + rewrite <- map_app, take_drop. by rewrite Hperm.
    + intros a b Ha Hb.
      apply list_elem_of_fmap in Ha as (x & -> & Hx).
      apply list_elem_of_fmap in Hb as (y & -> & Hy).
      by apply (Hcross x y).
Qed.

Lemma top_pages_by_inbound_are_top_witness :
  0 <= 2
  /\ map tp_url (get_top_pages_by_inbound tied_pages_analyzer 2)
     = [lit "/"; lit "/b/"]
  /\ length (get_top_pages_by_inbound tied_pages_analyzer 2) = 2%nat.
Proof.
  assert (H : 0 <= 2) by lia.
  split; [exact H|]. split; [reflexivity|].
  destruct (top_pages_by_inbound_are_top tied_pages_analyzer 2 H) as [Hlen _].
  exact Hlen.
Defined.

Lemma calculate_metrics_keys_aux {F : Type} (fzero : F)
  (int_truediv : Z -> Z -> F) (round2 : F -> F) (self : LinkGraphAnalyzer F) :
  metrics self = [] ->
  length (metrics (calculate_metrics fzero int_truediv round2 self))
  = size (all_pages self).
Proof.
  intros Hm. rewrite (calculate_metrics_fresh fzero int_truediv round2 self Hm).
  by rewrite length_map.
Qed.

Lemma metrics_sums {F : Type} (fzero : F) (int_truediv : Z -> Z -> F)
  (round2 : F -> F) (self : LinkGraphAnalyzer F) :
  metrics self = [] ->
  graph_closed self ->
  let computed := metrics (calculate_metrics fzero int_truediv round2 self) in
  sum_Z (map (fun item => outbound item.2) computed) = count_links (link_graph self)
  /\ sum_Z (map (fun item => inbound item.2) computed)
     = count_links (link_graph self).
Proof.
  intros Hm Hclosed computed. unfold computed, count_links.
  rewrite (calculate_metrics_fresh fzero int_truediv round2 self Hm).
  rewrite !map_map. cbn [snd page_metrics outbound inbound].
  rewrite (sum_Z_of_nat (fun p => length (default [] (link_graph self !! p)))).
  rewrite (sum_Z_of_nat
             (fun p => length (default []
                                 (build_inbound_from (link_graph self) !! p)))).
  rewrite (sum_Z_of_nat (fun item : str * list str => length item.2)).
  assert (Hout : total_len (link_graph self) (elements (all_pages self))
                 = sum_list_with (fun item : str * list str => length item.2)
                     (map_to_list (link_graph self))).
  { apply total_len_graph; [apply NoDup_elements|].
    intros s [ts Hs]. apply elem_of_elements.
    by destruct (Hclosed s ts Hs) as [H _]. }
  assert (Hinb : total_len (build_inbound_from (link_graph self))
                   (elements (all_pages self))
                 = sum_list_with (fun item : str * list str => length item.2)
                     (map_to_list (link_graph self))).
  { unfold build_inbound_from. rewrite total_len_inbound_items.
    - by rewrite total_len_empty.
    - apply NoDup_elements.
    - intros s ts t Hs Ht. apply elem_of_map_to_list in Hs.
      apply elem_of_elements. by apply (Hclosed s ts Hs). }
  unfold total_len in Hout, Hinb. by rewrite Hout, Hinb.
Qed.

Lemma length_select_disjoint {A B C : Type} (c1 c2 : A -> bool)
  (f1 : A -> B) (f2 : A -> C) (l : list A) :
  (forall a, c1 a = true -> c2 a = false) ->
  (length (flat_map (fun a => if c1 a then [f1 a] else []) l)
   + length (flat_map (fun a => if c2 a then [f2 a] else []) l)
   <= length l)%nat.
Proof.
  intros Hd. induction l as [|a l IH]; simpl; [lia|].
  rewrite !length_app. pose proof (Hd a) as Ha.
  destruct (c1 a), (c2 a); simpl; lia.
Qed.

(** X13: in the dictionary [analyze] returns for a new analyzer,
    [total_pages] is the number of entries of [page_metrics],
    [total_links] is the sum of their outbound counts and the sum of
    their inbound counts, and the orphan and under-linked pages together
    are at most [total_pages]. *)
Theorem analyze_totals (str_lower : str -> str) {F : Type} (fzero : F)
  (int_truediv : Z -> Z -> F) (round2 : F -> F) (now : str)
  (excluded_paths excluded_extensions : option (list str))
  (html_files : list html_file)
  (underlinked_threshold overlinked_threshold sink_min_inbound
     sink_max_outbound : Z) :
  let a := (analyze str_lower fzero int_truediv round2 now
              (new_analyzer F excluded_paths excluded_extensions) html_files
              underlinked_threshold overlinked_threshold sink_min_inbound
              sink_max_outbound).2 in
  total_pages a = Z.of_nat (length (page_metrics_of a))
  /\ total_links a = sum_Z (map (fun item => outbound item.2) (page_metrics_of a))
  /\ total_links a = sum_Z (map (fun item => inbound item.2) (page_metrics_of a))
  /\ summary_orphan_pages a + summary_underlinked_pages a <= total_pages a.
Proof.
  intros a. unfold a, analyze.
  cbn [snd total_pages total_links page_metrics_of summary_orphan_pages
       summary_underlinked_pages].
  set (built := build_graph str_lower
                  (new_analyzer F excluded_paths excluded_extensions) html_files).
  assert (Hm : metrics built = [])
    by (unfold built; by rewrite build_graph_metrics).
  assert (Hclosed : graph_closed built).
  { apply build_graph_closed. intros s ts H. cbn in H.
    by rewrite lookup_empty in H. }
  pose proof (calculate_metrics_keys_aux fzero int_truediv round2 built Hm)
    as Hlen.
  destruct (metrics_sums fzero int_truediv round2 built Hm Hclosed)
    as [Hout Hinb].
  cbn [all_pages link_graph calculate_metrics] in *.
  split; [by rewrite Hlen|]. split; [by rewrite Hout|].
  split; [by rewrite Hinb|].
  rewrite <- Hlen, find_orphans_select.
  unfold sorted_str, find_underlinked, sorted_key.
  rewrite <- !Nat2Z.inj_add. apply Nat2Z.inj_le.
  rewrite !(Permutation_length (sorted_with_perm _ _)).
  unfold underlinked_candidates.
  apply (length_select_disjoint (is_orphan F)
           (fun item => (0 <? inbound item.2)
                        && (inbound item.2 <? underlinked_threshold))).
  intros item Ho. unfold is_orphan in Ho.
  apply andb_true_iff in Ho as [H0 _]. apply Z.eqb_eq in H0. rewrite H0. done.
Qed.

(** ** More on [check_url] *)

Definition unknown_error_answer : probe_result :=
  (None, lit "Unknown Error", true).

(** The answer of the handlers that neither retry nor report a
    connection error. *)
Definition too_many_redirects_answer : probe_result :=
  (None, lit "Too Many Redirects", true).

Definition ssl_answer : probe_result :=
  (None, lit "SSL Certificate Error", true).

Definition other_error_answer (e : exn) : probe_result :=
  (None, lit "Error: " ++ exn_str e, true).

(** The classes of [requests.exceptions] as the library declares them:
    [SSLError] is a subclass of [ConnectionError], and [Timeout],
    [ConnectionError] and [TooManyRedirects] are [Exception]s. Every
    exception object has its flags so. *)
Definition requests_hierarchy (e : exn) : bool :=
  implb (is_SSLError e) (is_ConnectionError e)
  && implb (is_Timeout e) (is_Exception e)
  && implb (is_ConnectionError e) (is_Exception e)
  && implb (is_TooManyRedirects e) (is_Exception e).

(** A status code decides [is_broken]; without one the link is broken. *)
Definition verdict_matches_status (answer : probe_result) : Prop :=
  answer.2 = match answer.1.1 with
             | Some status => 400 <=? status
             | None => true
             end.

Section CheckerMore.

Variable requests_head : str -> nat -> result response.
Variable requests_get : str -> nat -> result response.
Variable read_first_chunk : str -> nat -> result unit.

Lemma check_url_no_attempts_aux (self : HTTPLinkChecker) (url : str) :
  retry_count self <= 0 ->
  check_url requests_head requests_get read_first_chunk self url
  = ([], Ok unknown_error_answer).
Proof using Type.
  intros H. unfold check_url.
  replace (Z.to_nat (retry_count self)) with 0%nat by lia. reflexivity.
Qed.

(** X14: with [retry_count <= 0] the loop body never runs: no request
    is made, whatever the network, and the link is reported broken with
    ["Unknown Error"]. *)
Theorem check_url_no_attempts (self : HTTPLinkChecker) (url : str) :
  retry_count self <= 0 ->
  check_url requests_head requests_get read_first_chunk self url
  = ([], Ok unknown_error_answer).
Proof using Type. apply check_url_no_attempts_aux. Qed.

Lemma handler_log (self : HTTPLinkChecker) (a : nat) (e : exn) :
  ((handler self a e).1 = [] /\ (handler self a e).2 <> Ok None)
  \/ (handler self a e = ([Sleep 1], Ok None)
      /\ Z.of_nat a <> retry_count self - 1).
Proof using Type.
  clear requests_head requests_get read_first_chunk.
  unfold handler, call, mbind, io_bind, mret, io_ret.
  destruct (is_Timeout e).
  - destruct (Z.eqb_spec (Z.of_nat a) (retry_count self - 1)).
    + by left.
    + by right.
  - left. repeat match goal with
                 | |- context [if ?b then _ else _] => destruct b
                 end; by split.
Qed.

Lemma attempts_bounds (self : HTTPLinkChecker) (url : str) (n a : nat) :
  Z.of_nat (a + n) = retry_count self ->
  let log := (attempts requests_head requests_get read_first_chunk self url
                a n).1 in
  (length (List.filter is_head log) <= n)%nat
  /\ (length (List.filter is_sleep log) <= n - 1)%nat
  /\ (forall s, Sleep s ∈ log -> s = 1).
Proof using Type.
  revert a. induction n as [|n IH]; intros a Hrc log; unfold log; clear log.
  - simpl. repeat split; try lia. intros s H. by apply elem_of_nil in H.
  - rewrite attempts_S.
    pose proof (probe_log requests_head requests_get read_first_chunk url a)
      as Hpl.
    destruct (probe requests_head requests_get read_first_chunk url a)
      as [l [answer|e]]; cbn [fst] in Hpl.
    + cbn [fst]. destruct Hpl as [-> | ->]; simpl; repeat split; try lia;
        intros s H; repeat (apply elem_of_cons in H as [H|H]; [done|]);
        by apply elem_of_nil in H.
    + destruct (handler_log self a e) as [[Hl Hr]|[Hh Hne]].
      * destruct (handler self a e) as [l' [[answer|]|e']];
          cbn [fst snd] in *; subst l'; try done;
          rewrite app_nil_r;
          (destruct Hpl as [-> | ->]; simpl; repeat split; try lia;
           intros s H; repeat (apply elem_of_cons in H as [H|H]; [done|]);
           by apply elem_of_nil in H).
      * rewrite Hh.
        destruct (IH (S a) ltac:(lia)) as (H1 & H2 & H3).
        destruct (attempts requests_head requests_get read_first_chunk self
                    url (S a) n) as [l'' r]. cbn [fst] in *.
        rewrite !List.filter_app, !length_app.
        repeat split.
        -- destruct Hpl as [-> | ->]; simpl; lia.
        -- destruct Hpl as [-> | ->]; simpl; lia.
        -- intros s. rewrite !elem_of_app, list_elem_of_singleton.
           intros [H|[H|H]]; [| by injection H | by apply H3].
           destruct Hpl as [-> | ->];
             repeat (apply elem_of_cons in H as [H|H]; [done|]);
             by apply elem_of_nil in H.
Qed.

(** X15: whatever the network answers, [check_url] sends at most
    [retry_count] [HEAD] requests, sleeps at most [retry_count - 1]
    times, and every sleep lasts one second. *)
Theorem check_url_effort (self : HTTPLinkChecker) (url : str) :
  let log := (check_url requests_head requests_get read_first_chunk self
                url).1 in
  (length (List.filter is_head log) <= Z.to_nat (retry_count self))%nat
  /\ (length (List.filter is_sleep log) <= Z.to_nat (retry_count self) - 1)%nat
  /\ (forall s, Sleep s ∈ log -> s = 1).
Proof using Type.
  intros log. unfold log. clear log.
  destruct (Z.le_gt_cases (retry_count self) 0) as [Hle|Hgt].
  - rewrite check_url_no_attempts_aux by done. simpl.
    repeat split; try lia. intros s H. by apply elem_of_nil in H.
  - unfold check_url. apply attempts_bounds. lia.
Qed.

Lemma attempts_verdict (self : HTTPLinkChecker) (url : str) (n a : nat)
  (answer : probe_result) :
  (attempts requests_head requests_get read_first_chunk self url a n).2
  = Ok answer ->
  verdict_matches_status answer.
Proof using Type.
  revert a. induction n as [|n IH]; intros a.
  - simpl. by intros [= <-].
  - rewrite attempts_S.
    destruct (probe requests_head requests_get read_first_chunk url a)
      as [l [answer'|e]] eqn:Hp.
    + cbn [snd]. intros [= ->]. revert Hp.
      unfold probe, call, mbind, io_bind, mret, io_ret.
      destruct (requests_head url a) as [resp|e0]; [|done].
      destruct (bool_decide _).
      * destruct (requests_get url a) as [resp'|e0]; [|done].
        destruct (read_first_chunk url a) as [[]|e0]; [|done].
        by intros [= _ <-].
      * by intros [= _ <-].
    + unfold handler, call, mbind, io_bind, mret, io_ret.
      repeat match goal with
             | |- context [if ?b then _ else _] => destruct b
             end; cbn [snd]; try (by intros [= <-]).
      specialize (IH (S a)).
      destruct (attempts requests_head requests_get read_first_chunk self url
                  (S a) n) as [l'' r].
      cbn [snd] in *. done.
Qed.

(** X16: in every answer of [check_url], [is_broken] is [status >= 400]
    when there is a status code, and true when there is none. *)
Theorem check_url_verdict (self : HTTPLinkChecker) (url : str)
  (answer : probe_result) :
  (check_url requests_head requests_get read_first_chunk self url).2
  = Ok answer ->
  verdict_matches_status answer.
Proof using Type. apply attempts_verdict. Qed.

End CheckerMore.

Section CheckerOutcomes.

Variable requests_head : str -> nat -> result response.
Variable requests_get : str -> nat -> result response.
Variable read_first_chunk : str -> nat -> result unit.

Definition answer_of (resp : response) : probe_result :=
  (Some (resp_status_code resp), resp_reason resp,
   400 <=? resp_status_code resp).

(** What the attempt [k] does once [k] earlier attempts have timed out. *)
Lemma check_url_at_attempt (self : HTTPLinkChecker) (url : str) (k : nat) :
  Z.of_nat k < retry_count self ->
  (forall j, (j < k)%nat ->
     exists e, (probe requests_head requests_get read_first_chunk url j).2
               = Raise e /\ is_Timeout e = true) ->
  exists m,
    check_url requests_head requests_get read_first_chunk self url
    = (retried_log requests_head requests_get read_first_chunk url 0 k
         ++ (attempts requests_head requests_get read_first_chunk self url
               k (S m)).1,
       (attempts requests_head requests_get read_first_chunk self url
          k (S m)).2).
Proof using Type.
  intros Hk Hto. unfold check_url.
  set (n := Z.to_nat (retry_count self)).
  rewrite (attempts_timeouts requests_head requests_get read_first_chunk
             self url k 0 n); [| lia | lia | done].
  cbn [Nat.add]. destruct (n - k)%nat as [|m] eqn:Hm; [lia|]. by exists m.
Qed.

(** X17: an attempt that gets a response ends [check_url] with that
    response, after the back-offs of the timeouts before it and with no
    sleep after it. *)
Theorem check_url_recovers (self : HTTPLinkChecker) (url : str) (k : nat)
  (log : list event) (answer : probe_result) :
  Z.of_nat k < retry_count self ->
  (forall j, (j < k)%nat ->
     exists e, (probe requests_head requests_get read_first_chunk url j).2
               = Raise e /\ is_Timeout e = true) ->
  probe requests_head requests_get read_first_chunk url k = (log, Ok answer) ->
  check_url requests_head requests_get read_first_chunk self url
  = (retried_log requests_head requests_get read_first_chunk url 0 k ++ log,
     Ok answer).
Proof using Type.
  intros Hk Hto Hp.
  destruct (check_url_at_attempt self url k Hk Hto) as (m & ->).
  by rewrite attempts_S, Hp.
Qed.

(** X18: the [HEAD] response is the answer unless its status is 405 or
    403; then a [GET] is sent and its response is the answer, so a
    page that refuses [HEAD] and serves [GET] is not broken. *)
Theorem probe_head_then_get (url : str) (attempt : nat) (head : response) :
  requests_head url attempt = Ok head ->
  (resp_status_code head <> 405 -> resp_status_code head <> 403 ->
   probe requests_head requests_get read_first_chunk url attempt
   = ([Head url], Ok (answer_of head)))
  /\ (resp_status_code head = 405 \/ resp_status_code head = 403 ->
      forall got,
        requests_get url attempt = Ok got ->
        read_first_chunk url attempt = Ok tt ->
        probe requests_head requests_get read_first_chunk url attempt
        = ([Head url; Get url], Ok (answer_of got)))
  /\ (resp_status_code head = 405 \/ resp_status_code head = 403 ->
      forall e,
        requests_get url attempt = Raise e ->
        probe requests_head requests_get read_first_chunk url attempt
        = ([Head url; Get url], Raise e)).
Proof using Type.
  intros Hh. unfold probe, call, mbind, io_bind, mret, io_ret. rewrite Hh.
  split; [|split].
  - intros H1 H2. rewrite bool_decide_eq_false_2; [done|].
    rewrite !elem_of_cons. intros [?|[?|H]]; [done | done |].
    by apply elem_of_nil in H.
  - intros H got Hg Hr. rewrite bool_decide_eq_true_2.
    + by rewrite Hg, Hr.
    + rewrite !elem_of_cons. tauto.
  - intros H e Hg. rewrite bool_decide_eq_true_2.
    + by rewrite Hg.
    + rewrite !elem_of_cons. tauto.
Qed.

(** X19: a failure that is neither a timeout nor a connection error,
    and so no SSL error either, ends [check_url] at once, with no sleep
    and no further request. The answer is ["Too Many Redirects"] for too
    many redirects, else ["Error: "] and the text of the exception; what
    is no [Exception] is raised again. The answer is never
    ["SSL Certificate Error"]. *)
Theorem check_url_other_failures (self : HTTPLinkChecker) (url : str)
  (k : nat) (e : exn) :
  Z.of_nat k < retry_count self ->
  (forall j, (j < k)%nat ->
     exists e', (probe requests_head requests_get read_first_chunk url j).2
                = Raise e' /\ is_Timeout e' = true) ->
  (probe requests_head requests_get read_first_chunk url k).2 = Raise e ->
  requests_hierarchy e = true ->
  is_Timeout e = false ->
  is_ConnectionError e = false ->
  let run := check_url requests_head requests_get read_first_chunk self url in
  run.1 = retried_log requests_head requests_get read_first_chunk url 0 k
          ++ (probe requests_head requests_get read_first_chunk url k).1
  /\ run.2 = (if is_TooManyRedirects e then Ok too_many_redirects_answer
              else if is_Exception e then Ok (other_error_answer e)
              else Raise e)
  /\ is_SSLError e = false
  /\ run.2 <> Ok ssl_answer.
Proof using Type.
  intros Hk Hto He Hcl Het Hec run. unfold run.
  assert (Hes : is_SSLError e = false).
  { unfold requests_hierarchy in Hcl. rewrite Hec in Hcl.
    by destruct (is_SSLError e). }
  destruct (check_url_at_attempt self url k Hk Hto) as (m & ->).
  rewrite attempts_S.
  destruct (probe requests_head requests_get read_first_chunk url k) as [l r].
  simpl in He. subst r. unfold handler. rewrite Het, Hec, Hes.
  unfold mret, io_ret.
  destruct (is_TooManyRedirects e); [|destruct (is_Exception e)];
    cbn [fst snd]; rewrite app_nil_r; repeat split; try done;
    intros H; vm_compute in H; discriminate H.
Qed.

End CheckerOutcomes.

Section CheckerClasses.

Variable requests_head : str -> nat -> result response.
Variable requests_get : str -> nat -> result response.
Variable read_first_chunk : str -> nat -> result unit.

(** Whatever the network raises has the classes of the library. *)
Hypothesis head_raises_in_hierarchy :
  forall url k e, requests_head url k = Raise e -> requests_hierarchy e = true.
Hypothesis get_raises_in_hierarchy :
  forall url k e, requests_get url k = Raise e -> requests_hierarchy e = true.
Hypothesis read_raises_in_hierarchy :
  forall url k e, read_first_chunk url k = Raise e -> requests_hierarchy e = true.

Lemma attempts_never_ssl_answer (self : HTTPLinkChecker) (url : str)
  (n a : nat) :
  (attempts requests_head requests_get read_first_chunk self url a n).2
  <> Ok ssl_answer.
Proof using head_raises_in_hierarchy get_raises_in_hierarchy
  read_raises_in_hierarchy.
  revert a. induction n as [|n IH]; intros a.
  - intros H. vm_compute in H. discriminate H.
  - rewrite attempts_S.
    destruct (probe requests_head requests_get read_first_chunk url a)
      as [l [answer|e]] eqn:Hp.
    + cbn [snd]. intros [= ->]. revert Hp.
      unfold probe, call, mbind, io_bind, mret, io_ret.
      destruct (requests_head url a) as [resp|e0]; [|done].
      destruct (bool_decide _).
      * destruct (requests_get url a) as [resp'|e0]; [|done].
        by destruct (read_first_chunk url a) as [[]|e0].
      * done.
    + assert (Hcl : requests_hierarchy e = true).
      { destruct (probe_raises requests_head requests_get read_first_chunk
                    url a e) as [H|[H|H]]; [by rewrite Hp | | |]; eauto. }
      unfold handler, call, mbind, io_bind, mret, io_ret.
      unfold requests_hierarchy in Hcl.
      destruct (is_Timeout e).
      * destruct (Z.of_nat a =? retry_count self - 1).
        -- cbn [snd]. intros H. vm_compute in H. discriminate H.
        -- specialize (IH (S a)).
           by destruct (attempts requests_head requests_get read_first_chunk
                          self url (S a) n) as [l'' r].
      * destruct (is_ConnectionError e).
        -- cbn [snd]. intros H. vm_compute in H. discriminate H.
        -- destruct (is_SSLError e); [done|].
           destruct (is_TooManyRedirects e); [|destruct (is_Exception e)];
             cbn [snd]; intros H; vm_compute in H; discriminate H.
Qed.

(** X26: the clause for [SSLError] is never reached, since an
    [SSLError] is a [ConnectionError] and that clause comes first:
    [check_url] never answers ["SSL Certificate Error"], and an SSL
    failure that is no timeout is answered as a connection error. *)
Theorem check_url_never_ssl_answer (self : HTTPLinkChecker) (url : str) :
  (check_url requests_head requests_get read_first_chunk self url).2
  <> Ok ssl_answer
  /\ forall e,
       1 <= retry_count self ->
       (probe requests_head requests_get read_first_chunk url 0).2 = Raise e ->
       is_SSLError e = true ->
       is_Timeout e = false ->
       check_url requests_head requests_get read_first_chunk self url
       = ((probe requests_head requests_get read_first_chunk url 0).1,
          Ok connection_error_answer).
Proof using head_raises_in_hierarchy get_raises_in_hierarchy
  read_raises_in_hierarchy.
  split; [apply attempts_never_ssl_answer|].
  intros e Hrc He Hes Het.
  assert (Hcl : requests_hierarchy e = true).
  { destruct (probe_raises requests_head requests_get read_first_chunk
                url 0 e He) as [H|[H|H]]; eauto. }
  assert (Hec : is_ConnectionError e = true).
  { unfold requests_hierarchy in Hcl. rewrite Hes in Hcl.
    by destruct (is_ConnectionError e). }
  unfold check_url.
  destruct (Z.to_nat (retry_count self)) as [|m] eqn:Hm; [lia|].
  rewrite attempts_S.
  destruct (probe requests_head requests_get read_first_chunk url 0) as [l r].
  simpl in He. subst r. unfold handler. rewrite Het, Hec.
  unfold mret, io_ret. cbn [fst]. by rewrite app_nil_r.
Qed.

End CheckerClasses.

(** A certificate failure as [requests] raises it: an [SSLError], which
    is a [ConnectionError]; and a redirect loop. *)
Definition ssl_failure : exn :=
  {| is_Timeout := false; is_ConnectionError := true;
     is_TooManyRedirects := false; is_SSLError := true;
     is_Exception := true; exn_str := lit "certificate verify failed" |}.

Definition redirect_loop : exn :=
  {| is_Timeout := false; is_ConnectionError := false;
     is_TooManyRedirects := true; is_SSLError := false;
     is_Exception := true; exn_str := lit "Exceeded 30 redirects." |}.

Definition net_forbidden (url : str) (attempt : nat) : result response :=
  Ok {| resp_status_code := 403; resp_reason := lit "Forbidden" |}.

Definition net_timeout_then_ok (url : str) (attempt : nat) : result response :=
  match attempt with
  | O => Raise read_timeout
  | S _ => Ok {| resp_status_code := 404; resp_reason := lit "Not Found" |}
  end.

Definition net_ssl_failure (url : str) (attempt : nat) : result response :=
  Raise ssl_failure.

Definition net_redirect_loop (url : str) (attempt : nat) : result response :=
  Raise redirect_loop.

Lemma check_url_no_attempts_witness :
  retry_count (new_checker 5 20 (-1) default_user_agent) <= 0
  /\ check_url net_ok net_ok read_ok
       (new_checker 5 20 (-1) default_user_agent) (lit "https://example.org/")
     = ([], Ok unknown_error_answer).
Proof.
  assert (H : retry_count (new_checker 5 20 (-1) default_user_agent) <= 0)
    by (simpl; lia).
  split; [exact H|].
  apply (check_url_no_attempts net_ok net_ok read_ok
           (new_checker 5 20 (-1) default_user_agent)
           (lit "https://example.org/") H).
Defined.

Lemma check_url_verdict_witness :
  (check_url net_forbidden net_ok read_ok
     (new_checker 5 20 1 default_user_agent) (lit "https://example.org/")).2
  = Ok (Some 200, lit "OK", false)
  /\ verdict_matches_status (Some 200, lit "OK", false).
Proof.
  assert (H : (check_url net_forbidden net_ok read_ok
                 (new_checker 5 20 1 default_user_agent)
                 (lit "https://example.org/")).2
              = Ok (Some 200, lit "OK", false)) by reflexivity.
  split; [exact H|].
  apply (check_url_verdict net_forbidden net_ok read_ok
           (new_checker 5 20 1 default_user_agent)
           (lit "https://example.org/") _ H).
Defined.

Lemma check_url_recovers_witness :
  check_url net_timeout_then_ok net_ok read_ok
    (new_checker 5 20 2 default_user_agent) (lit "https://example.org/x")
  = ([Head (lit "https://example.org/x"); Sleep 1;
      Head (lit "https://example.org/x")],
     Ok (Some 404, lit "Not Found", true)).
Proof.
  rewrite (check_url_recovers net_timeout_then_ok net_ok read_ok
             (new_checker 5 20 2 default_user_agent)
             (lit "https://example.org/x") 1
             [Head (lit "https://example.org/x")]
             (Some 404, lit "Not Found", true)).
  - reflexivity.
  - reflexivity.
  - intros [|j] Hj; [|lia]. exists read_timeout. split; reflexivity.
  - reflexivity.
Defined.

Lemma probe_head_then_get_witness :
  net_forbidden (lit "https://example.org/") 0
  = Ok {| resp_status_code := 403; resp_reason := lit "Forbidden" |}
  /\ probe net_forbidden net_ok read_ok (lit "https://example.org/") 0
     = ([Head (lit "https://example.org/"); Get (lit "https://example.org/")],
        Ok (Some 200, lit "OK", false)).
Proof.
  split; [reflexivity|].
  destruct (probe_head_then_get net_forbidden net_ok read_ok
              (lit "https://example.org/") 0
              {| resp_status_code := 403; resp_reason := lit "Forbidden" |}
              eq_refl) as (_ & H & _).
  apply (H (or_intror eq_refl)
           {| resp_status_code := 200; resp_reason := lit "OK" |});
    reflexivity.
Defined.

Lemma check_url_other_failures_witness :
  (probe net_redirect_loop net_ok read_ok (lit "https://loop.example/") 0).2
  = Raise redirect_loop
  /\ requests_hierarchy redirect_loop = true
  /\ check_url net_redirect_loop net_ok read_ok
       (new_checker 5 20 3 default_user_agent) (lit "https://loop.example/")
     = ([Head (lit "https://loop.example/")], Ok too_many_redirects_answer).
Proof.
  split; [reflexivity|]. split; [reflexivity|].
  destruct (check_url_other_failures net_redirect_loop net_ok read_ok
              (new_checker 5 20 3 default_user_agent)
              (lit "https://loop.example/") 0 redirect_loop)
    as (Hlog & Hans & _ & _).
  - reflexivity.
  - intros j Hj. lia.
  - reflexivity.
  - reflexivity.
  - reflexivity.
  - reflexivity.
  - destruct (check_url net_redirect_loop net_ok read_ok
                (new_checker 5 20 3 default_user_agent)
                (lit "https://loop.example/")) as [l r].
    cbn [fst snd] in *. by rewrite Hlog, Hans.
Defined.

Lemma net_ssl_failure_in_hierarchy (url : str) (k : nat) (e : exn) :
  net_ssl_failure url k = Raise e -> requests_hierarchy e = true.
Proof. by intros [= <-]. Qed.

Lemma net_ok_in_hierarchy (url : str) (k : nat) (e : exn) :
  net_ok url k = Raise e -> requests_hierarchy e = true.
Proof. done. Qed.

Lemma read_ok_in_hierarchy (url : str) (k : nat) (e : exn) :
  read_ok url k = Raise e -> requests_hierarchy e = true.
Proof. done. Qed.

Lemma check_url_never_ssl_answer_witness :
  (check_url net_ssl_failure net_ok read_ok
     (new_checker 5 20 3 default_user_agent) (lit "https://expired.example/")).2
  <> Ok ssl_answer
  /\ check_url net_ssl_failure net_ok read_ok
       (new_checker 5 20 3 default_user_agent) (lit "https://expired.example/")
     = ([Head (lit "https://expired.example/")], Ok connection_error_answer).
Proof.
  destruct (check_url_never_ssl_answer net_ssl_failure net_ok read_ok
              net_ssl_failure_in_hierarchy net_ok_in_hierarchy
              read_ok_in_hierarchy
              (new_checker 5 20 3 default_user_agent)
              (lit "https://expired.example/")) as [Hnever Hssl].
  split; [exact Hnever|].
  apply (Hssl ssl_failure); [simpl; lia | reflexivity..].
Defined.

(** ** More on [check_urls] *)

(** What [check_single] copies from an entry of [urls_with_info] into
    its result. *)
Definition result_of_item (item : str * url_info) (r : ProbeResult) : Prop :=
  pr_url r = item.1
  /\ pr_occurrences r = default 1 (info_count item.2)
  /\ pr_sample_pages r = take 5 (default [] (info_pages item.2))
  /\ verdict_matches_status (pr_status_code r, pr_status_message r, pr_is_broken r).

Section CheckUrlsMore.

Variable requests_head : str -> nat -> result response.
Variable requests_get : str -> nat -> result response.
Variable read_first_chunk : str -> nat -> result unit.
Variable as_completed : list (str * url_info) -> list (str * url_info).

Hypothesis head_raises_Exception :
  forall url k e, requests_head url k = Raise e -> is_Exception e = true.
Hypothesis get_raises_Exception :
  forall url k e, requests_get url k = Raise e -> is_Exception e = true.
Hypothesis read_raises_Exception :
  forall url k e, read_first_chunk url k = Raise e -> is_Exception e = true.
Hypothesis as_completed_permutes : forall l, as_completed l ≡ₚ l.

(** [check_urls] leaves the number of workers as it is. *)
Lemma check_urls_keeps_workers (self : HTTPLinkChecker)
  (urls_with_info : gmap str url_info) :
  0 < max_workers self ->
  0 < max_workers
        (check_urls requests_head requests_get read_first_chunk as_completed
           self urls_with_info).1.
Proof using Type.
  intros H. unfold check_urls. destruct (max_workers self <=? 0); [done|].
  by destruct (collect _ _).
Qed.


Lemma check_single_item (self : HTTPLinkChecker) (url : str) (info : url_info) :
  exists r,
    (check_single requests_head requests_get read_first_chunk self url info).2
    = Ok r
    /\ result_of_item (url, info) r.
Proof using head_raises_Exception get_raises_Exception read_raises_Exception.
  unfold check_single, check_url.
  destruct (attempts_returns requests_head requests_get read_first_chunk
              head_raises_Exception get_raises_Exception read_raises_Exception
              self url (Z.to_nat (retry_count self)) 0)
    as (l & answer & Ha).
  pose proof (attempts_verdict requests_head requests_get read_first_chunk
                self url (Z.to_nat (retry_count self)) 0 answer) as Hv.
  rewrite Ha in *. unfold mbind, io_bind, mret, io_ret. eexists.
  split; [reflexivity|]. repeat split. cbn.
  destruct answer as [[code msg] b]. by apply Hv.
Qed.

Lemma collect_items (self : HTTPLinkChecker) (items : list (str * url_info))
  (acc : list ProbeResult) :
  exists rs,
    collect acc
      (map (fun item =>
              (check_single requests_head requests_get read_first_chunk self
                 item.1 item.2).2) items)
    = (acc ++ rs, Ok tt)
    /\ Forall2 result_of_item items rs.
Proof using head_raises_Exception get_raises_Exception read_raises_Exception.
  revert acc. induction items as [|[url info] items IH]; intros acc.
  - exists []. by rewrite app_nil_r.
  - cbn [map collect fst snd].
    destruct (check_single_item self url info) as (r & -> & Hr).
    destruct (IH (acc ++ [r])) as (rs & -> & Hrs).
    exists (r :: rs). rewrite <- app_assoc. split; [done|]. by constructor.
Qed.



End CheckUrlsMore.

Lemma net_refused_raises_Exception (url : str) (k : nat) (e : exn) :
  net_refused url k = Raise e -> is_Exception e = true.
Proof. by intros [= <-]. Qed.

Lemma net_ok_raises_Exception (url : str) (k : nat) (e : exn) :
  net_ok url k = Raise e -> is_Exception e = true.
Proof. done. Qed.

Lemma read_ok_raises_Exception (url : str) (k : nat) (e : exn) :
  read_ok url k = Raise e -> is_Exception e = true.
Proof. done. Qed.

Lemma rev_permutes (l : list (str * url_info)) : rev l ≡ₚ l.
Proof. symmetry. apply Permutation_rev. Qed.

(** The [outbound_links] of an input file: one link on six pages. *)
Definition six_pages_link : gmap str (list str) :=
  {[ lit "https://example.org/" :=
       [lit "a.html"; lit "b.html"; lit "c.html"; lit "d.html"; lit "e.html";
        lit "f.html"] ]}.




(** ** More on the filter and on the output of [main] *)

Lemma filter_filter_and {A : Type} (f g : A -> bool) (l : list A) :
  List.filter g (List.filter f l) = List.filter (fun x => f x && g x) l.
Proof.
  induction l as [|x l IH]; [done|]. cbn [List.filter].
  destruct (f x); cbn [andb List.filter]; [|done]. by rewrite IH.
Qed.

Lemma filter_none {A : Type} (f : A -> bool) (l : list A) :
  (forall x, x ∈ l -> f x = false) -> List.filter f l = [].
Proof.
  induction l as [|x l IH]; intros H; [done|]. cbn [List.filter].
  rewrite (H x) by by left. apply IH. intros y Hy. apply H. by right.
Qed.

Lemma filter_all {A : Type} (f : A -> bool) (l : list A) :
  (forall x, x ∈ l -> f x = true) -> List.filter f l = l.
Proof.
  induction l as [|x l IH]; intros H; [done|]. cbn [List.filter].
  rewrite (H x) by by left. f_equal. apply IH. intros y Hy. apply H. by right.
Qed.

Lemma filter_sublist {A : Type} (f : A -> bool) (l : list A) :
  List.filter f l `sublist_of` l.
Proof.
  induction l as [|x l IH]; [done|]. cbn [List.filter].
  destruct (f x); [by apply sublist_skip | by apply sublist_cons].
Qed.

Lemma length_filter_split {A : Type} (b p : A -> bool) (l : list A) :
  (length (List.filter (fun x => b x && negb (p x)) l)
   + length (List.filter (fun x => b x && p x) l)
   = length (List.filter b l))%nat.
Proof.
  induction l as [|x l IH]; [done|]. cbn [List.filter].
  destruct (b x), (p x); cbn [andb negb length]; lia.
Qed.

Lemma filter_false_positives_spec (str_lower : str -> str)
  (results : list ProbeResult) (bot_blocker_domains : option (list str))
  (ignore_status_codes : option (list Z)) :
  let bots := or_default bot_blocker_domains default_bot_blockers in
  let codes := or_default ignore_status_codes default_ignore_codes in
  filter_false_positives str_lower results bot_blocker_domains
    ignore_status_codes
  = (List.filter
       (fun r => pr_is_broken r && negb (is_false_positive str_lower bots codes r))
       results,
     List.filter
       (fun r => pr_is_broken r && is_false_positive str_lower bots codes r)
       results).
Proof.
  intros bots codes. unfold filter_false_positives.
  by rewrite filter_loop_spec.
Qed.

(** X23: filtering again changes nothing: with the same lists, the real
    broken links come back as real broken and the false positives as
    false positives. *)
Theorem filter_false_positives_stable (str_lower : str -> str)
  (results : list ProbeResult) (bot_blocker_domains : option (list str))
  (ignore_status_codes : option (list Z)) :
  let out := filter_false_positives str_lower results bot_blocker_domains
               ignore_status_codes in
  filter_false_positives str_lower out.1 bot_blocker_domains ignore_status_codes
  = (out.1, [])
  /\ filter_false_positives str_lower out.2 bot_blocker_domains
       ignore_status_codes
     = ([], out.2).
Proof.
  intros out. unfold out. rewrite !filter_false_positives_spec. cbn [fst snd].
  set (b := or_default bot_blocker_domains _).
  set (c := or_default ignore_status_codes _).
  split; f_equal.
  - apply filter_all. intros r Hr.
    by apply list_elem_of_In, filter_In in Hr as [_ Hr].
  - apply filter_none. intros r Hr.
    apply list_elem_of_In, filter_In in Hr as [_ Hr].
    apply andb_true_iff in Hr as [-> Hr]. apply negb_true_iff in Hr.
    by rewrite Hr.
  - apply filter_none. intros r Hr.
    apply list_elem_of_In, filter_In in Hr as [_ Hr].
    apply andb_true_iff in Hr as [-> Hr]. by rewrite Hr.
  - apply filter_all. intros r Hr.
    by apply list_elem_of_In, filter_In in Hr as [_ Hr].
Qed.

(** X24: both lists keep the order of the input, and the results that
    are not broken play no part: dropping them first, as [main] does,
    gives the same two lists. *)
Theorem filter_false_positives_order (str_lower : str -> str)
  (results : list ProbeResult) (bot_blocker_domains : option (list str))
  (ignore_status_codes : option (list Z)) :
  let out := filter_false_positives str_lower results bot_blocker_domains
               ignore_status_codes in
  out.1 `sublist_of` results
  /\ out.2 `sublist_of` results
  /\ filter_false_positives str_lower (List.filter pr_is_broken results)
       bot_blocker_domains ignore_status_codes
     = out.
Proof.
  intros out. unfold out. rewrite !filter_false_positives_spec. cbn [fst snd].
  split; [apply filter_sublist|]. split; [apply filter_sublist|].
  rewrite !filter_filter_and. f_equal; apply filter_ext; intros r;
    by destruct (pr_is_broken r).
Qed.

(** X25: the counts [main] writes add up: every result is working or
    broken, every broken one is real or a false positive, and
    [broken_links] holds the real ones by falling [occurrences], equal
    ones in the order they were checked. Without [--filter] nothing is
    a false positive. *)
Theorem build_output_counts (str_lower : str -> str) (now : str)
  (results : list ProbeResult) (filter : bool)
  (bot_blocker_domains : option (list str))
  (ignore_status_codes : option (list Z)) :
  let out := build_output str_lower now results filter bot_blocker_domains
               ignore_status_codes in
  total_checked out = working out + broken out
  /\ broken out = real_broken out + false_positives out
  /\ real_broken out = Z.of_nat (length (broken_links out))
  /\ false_positives out = Z.of_nat (length (false_positive_links out))
  /\ StronglySorted (fun a b => pr_occurrences b <= pr_occurrences a)
       (broken_links out)
  /\ (forall k,
        List.filter (fun r => pr_occurrences r =? k) (broken_links out)
        `sublist_of` results)
  /\ (forall r, r ∈ broken_links out \/ r ∈ false_positive_links out ->
        r ∈ results /\ pr_is_broken r = true)
  /\ (forall r, r ∈ working_links out <-> r ∈ results /\ pr_is_broken r = false)
  /\ (filter = false -> false_positive_links out = []).
Proof.
  intros out. unfold out, build_output.
  cbn [total_checked working broken real_broken false_positives broken_links
       false_positive_links working_links].
  set (split := if filter then _ else _).
  assert (Hsub : split.1 `sublist_of` results).
  { unfold split. destruct filter.
    - rewrite filter_false_positives_spec. cbn [fst].
      etrans; apply filter_sublist.
    - apply filter_sublist. }
  assert (Hsplit : (length split.1 + length split.2
                    = length (List.filter pr_is_broken results))%nat
                   /\ forall r, r ∈ split.1 \/ r ∈ split.2 ->
                        r ∈ results /\ pr_is_broken r = true).
  { unfold split. destruct filter.
    - rewrite filter_false_positives_spec. cbn [fst snd].
      rewrite !filter_filter_and. split.
      + rewrite <- (length_filter_split pr_is_broken
                      (is_false_positive str_lower
                         (or_default bot_blocker_domains default_bot_blockers)
                         (or_default ignore_status_codes default_ignore_codes))
                      results).
        f_equal; f_equal; apply filter_ext; intros r;
          by destruct (pr_is_broken r).
      + intros r [Hr|Hr];
          apply list_elem_of_In, filter_In in Hr as [Hin Hr];
          apply list_elem_of_In in Hin;
          apply andb_true_iff in Hr as [Hr _]; done.
    - cbn [fst snd length]. split; [lia|].
      intros r [Hr|Hr]; [|by apply elem_of_nil in Hr].
      apply list_elem_of_In, filter_In in Hr as [Hin Hr].
      by apply list_elem_of_In in Hin. }
  destruct Hsplit as [Hlen Hmem].
  repeat split.
  - rewrite <- Nat2Z.inj_add. f_equal.
    clear. induction results as [|r results IH]; [done|].
    cbn [List.filter length]. destruct (pr_is_broken r); cbn [negb length]; lia.
  - rewrite <- Nat2Z.inj_add. by rewrite Hlen.
  - by rewrite (Permutation_length (sorted_key_reverse_perm _ _)).
  - apply sorted_key_reverse_descending.
  - intros k. rewrite sorted_key_reverse_stable.
    etrans; [apply filter_sublist | exact Hsub].
  - destruct H as [H|H].
    + rewrite sorted_key_reverse_perm in H. apply Hmem. by left.
    + apply Hmem. by right.
  - destruct H as [H|H].
    + rewrite sorted_key_reverse_perm in H. apply Hmem. by left.
    + apply Hmem. by right.
  - apply list_elem_of_In, filter_In in H as [Hin _].
    by apply list_elem_of_In.
  - apply list_elem_of_In, filter_In in H as [_ Hr].
    by apply negb_true_iff in Hr.
  - intros [Hin Hr]. apply list_elem_of_In, filter_In.
    split; [by apply list_elem_of_In | by rewrite Hr].
  - intros ->. done.
Qed.

(** ** Two files for one page *)

Lemma build_graph_step_keeps_pages (str_lower : str -> str) {F : Type}
  (self : LinkGraphAnalyzer F) (file : html_file) (page : str) :
  page ∈ all_pages self ->
  page ∈ all_pages (build_graph_step str_lower self file).
Proof.
  intros H. unfold build_graph_step.
  destruct (is_excluded str_lower self _); [done|].
  destruct file.2; cbn [all_pages]; set_solver.
Qed.

(** X11: when two readable files stand for the same URL, the second
    replaces the links of the first in the graph, while the targets of
    the first stay in the page set. *)
Theorem build_graph_last_file_wins (str_lower : str -> str) {F : Type}
  (self : LinkGraphAnalyzer F) (first_path second_path : str)
  (first_hrefs second_hrefs : list str) :
  file_path_to_url first_path = file_path_to_url second_path ->
  is_excluded str_lower self (file_path_to_url first_path) = false ->
  let after :=
    build_graph str_lower self
      [(first_path, Some first_hrefs); (second_path, Some second_hrefs)] in
  link_graph after !! file_path_to_url first_path
  = Some (elements
            (list_to_set (extract_internal_links str_lower self second_hrefs)
             : gset str))
  /\ (forall target,
        target ∈ extract_internal_links str_lower self first_hrefs ->
        target ∈ all_pages after).
Proof.
  intros Hsame Hex after. unfold after, build_graph. cbn [foldl].
  set (one := build_graph_step str_lower self (first_path, Some first_hrefs)).
  assert (Hone : one
                 = {| excluded_paths := excluded_paths self;
                      excluded_extensions := excluded_extensions self;
                      link_graph :=
                        <[file_path_to_url first_path :=
                            elements
                              (list_to_set
                                 (extract_internal_links str_lower self
                                    first_hrefs) : gset str)]>
                          (link_graph self);
                      all_pages :=
                        list_to_set
                          (elements
                             (list_to_set
                                (extract_internal_links str_lower self
                                   first_hrefs) : gset str))
                        ∪ ({[file_path_to_url first_path]} ∪ all_pages self);
                      metrics := metrics self |}).
  { unfold one, build_graph_step. cbn [fst snd]. by rewrite Hex. }
  assert (Hex' : is_excluded str_lower one (file_path_to_url second_path)
                 = false).
  { rewrite <- Hsame, <- Hex. apply is_excluded_same_lists; by rewrite Hone. }
  assert (Hlinks : extract_internal_links str_lower one second_hrefs
                   = extract_internal_links str_lower self second_hrefs).
  { unfold extract_internal_links. apply flat_map_ext. intros href.
    destruct (startswith href [Chr.slash]); [|done].
    rewrite (is_excluded_same_lists str_lower self one); [done | |];
      by rewrite Hone. }
  split.
  - unfold build_graph_step. cbn [fst snd]. rewrite Hex', Hlinks.
    cbn [link_graph]. rewrite <- Hsame. apply lookup_insert_eq.
  - intros target Ht. apply build_graph_step_keeps_pages.
    rewrite Hone. cbn [all_pages].
    apply elem_of_union_l, elem_of_list_to_set, elem_of_elements.
    by apply elem_of_list_to_set.
Qed.

Lemma build_graph_last_file_wins_witness :
  file_path_to_url (lit "about.html") = file_path_to_url (lit "about/index.html")
  /\ link_graph
       (build_graph ascii_lower (new_analyzer fraction None None)
          [(lit "about.html", Some [lit "/team/"]);
           (lit "about/index.html", Some [])])
     !! lit "/about/" = Some []
  /\ lit "/team/"
       ∈ all_pages
           (build_graph ascii_lower (new_analyzer fraction None None)
              [(lit "about.html", Some [lit "/team/"]);
               (lit "about/index.html", Some [])]).
Proof.
  assert (Hsame : file_path_to_url (lit "about.html")
                  = file_path_to_url (lit "about/index.html")) by reflexivity.
  split; [exact Hsame|].
  destruct (build_graph_last_file_wins ascii_lower
              (new_analyzer fraction None None)
              (lit "about.html") (lit "about/index.html")
              [lit "/team/"] [] Hsame eq_refl) as [Hgraph Hpages].
  split.
  - exact Hgraph.
  - apply Hpages. apply (bool_decide_unpack _). vm_compute. exact I.
Defined.

Lemma build_graph_pages_admitted_witness :
  lit "/b/" ∈ all_pages (build_graph ascii_lower
                           (new_analyzer fraction None None) three_pages)
  /\ is_excluded ascii_lower (new_analyzer fraction None None) (lit "/b/") = false
  /\ startswith (lit "/b/") [Chr.slash] = true.
Proof.
  assert (Hin : lit "/b/" ∈ all_pages (build_graph ascii_lower
                   (new_analyzer fraction None None) three_pages)).
  { apply (bool_decide_unpack _). vm_compute. exact I. }
  split; [exact Hin|].
  exact (build_graph_pages_admitted ascii_lower fraction None None three_pages
           (lit "/b/") Hin).
Defined.

Lemma build_graph_closed_and_distinct_witness :
  link_graph (build_graph ascii_lower (new_analyzer fraction None None)
                three_pages) !! lit "/a/" = Some [lit "/b/"]
  /\ lit "/a/" ∈ all_pages (build_graph ascii_lower
                              (new_analyzer fraction None None) three_pages)
  /\ NoDup [lit "/b/"].
Proof.
  assert (Hs : link_graph (build_graph ascii_lower
                  (new_analyzer fraction None None) three_pages) !! lit "/a/"
               = Some [lit "/b/"]) by (vm_compute; reflexivity).
  split; [exact Hs|].
  destruct (build_graph_closed_and_distinct ascii_lower fraction None None
              three_pages (lit "/a/") [lit "/b/"] Hs) as (H1 & _ & H3).
  split; [exact H1 | exact H3].
Defined.
